(** * The Copilot provider adapter of opencompat: model and checked properties

    The development embeds the Go package [internal/provider/copilot]:
    the stream adapter and the error normalizer ([Stream], [Next],
    [parseUpstreamError]), the credential broker ([getCopilotToken]) and the
    request translator ([transformMessages], [getInitiator],
    [hasImageContent]).

    Go strings are byte sequences; they are modelled by [string], whose
    characters are bytes, so [String.length] is Go's [len] and
    [substring 0 n] is the slice expression [s[:n]]. *)

From Stdlib Require Import ZArith String Ascii List Lia Bool.
From stdpp Require Import base option list gmap strings.

Local Open Scope string_scope.
Local Open Scope Z_scope.

(** Concatenation of strings unfolds under [simpl], as that of lists does. *)
#[local] Arguments String.append !s1 s2 : simpl nomatch.

(** ** Go strings *)

(** [strings.Contains(s, substr)]. *)
Fixpoint Contains (s substr : string) : bool :=
  if String.prefix substr s then true
  else match s with
       | EmptyString => false
       | String _ s' => Contains s' substr
       end.

(** One byte of [strings.ToLower]: the letters 'A'..'Z' move to 'a'..'z'. *)
Definition lower_byte (c : ascii) : ascii :=
  let n := nat_of_ascii c in
  if ((65 <=? n) && (n <=? 90))%nat then ascii_of_nat (n + 32) else c.

(** The bytes of a text with its capital letters lowered. *)
Fixpoint lowerBytes (s : string) : string :=
  match s with
  | EmptyString => EmptyString
  | String c s' => String (lower_byte c) (lowerBytes s')
  end.

(** No byte of the text is [utf8.RuneSelf] (0x80) or more. *)
Fixpoint isASCII (s : string) : bool :=
  match s with
  | EmptyString => true
  | String c s' => (nat_of_ascii c <? 128)%nat && isASCII s'
  end.

(** The [unicode] tables: [Map_ToLower s] is [strings.Map(unicode.ToLower, s)],
    which decodes the runes of [s], lowers each by the tables and encodes
    them again. *)
Class Unicode := { Map_ToLower : string -> string }.

(** [strings.ToLower]: a text of ASCII bytes only has its capital letters
    lowered byte by byte; any other text goes through the tables. *)
Definition ToLower `{Unicode} (s : string) : string :=
  if isASCII s then lowerBytes s else Map_ToLower s.

(** ** Errors *)

(** The error values the package produces or passes on. The constructors
    after [UpstreamError] stand for the [fmt.Errorf] calls of the client, in
    source order; [External] is an error raised by a collaborator (the
    credential store, the HTTP transport, the JSON decoder, the event reader). *)
Inductive error : Type :=
  | io_EOF
  | UpstreamError (status : Z) (message : string)
  | CredentialsError (cause : error)
  | NoGitHubToken
  | RequestError (cause : error)
  | ReadError (cause : error)
  | TokenStatusError (status : Z) (body : string)
  | TokenParseError (cause : error)
  | External (text : string).

(** Modelled from the spec: [api.NewUpstreamError] is declared in
    [internal/api], outside the sources at hand; an UpstreamError carries the
    HTTP status code and the human-readable message it is built from. *)
Definition NewUpstreamError (status : Z) (message : string) : error :=
  UpstreamError status message.

Inductive result (A : Type) : Type :=
  | Ok (a : A)
  | Fail (e : error).
Arguments Ok {A} a.
Arguments Fail {A} e.

(** The comparison [err != io.EOF]. *)
Definition is_EOF (e : error) : bool :=
  match e with io_EOF => true | _ => false end.

(** ** Wire values *)

(** The anonymous struct [parseUpstreamError] decodes into. *)
Record ErrResp := mkErrResp {
  Error_Message : string;
  Message_ : string
}.

(** [api.ChatCompletionChunk]: the two fields the adapter touches, and the
    rest of the chunk. *)
Record ChatCompletionChunk := mkChunk {
  chunk_Object : string;
  chunk_Created : Z;
  chunk_rest : string
}.

(** [api.ChatCompletionResponse], likewise. *)
Record ChatCompletionResponse := mkResponse {
  resp_Object : string;
  resp_Created : Z;
  resp_rest : string
}.

(** The anonymous struct [refreshCopilotToken] decodes into. *)
Record TokenResp := mkTokenResp {
  tr_Token : string;
  tr_ExpiresAt : Z
}.

(** [encoding/json]: what [json.Unmarshal] does on each of the four targets
    of the package. [Fail] is a non-nil error; the target is then not used by
    any caller. *)
Class JSON := {
  unmarshalErrResp : string -> result ErrResp;
  unmarshalChunk : string -> result ChatCompletionChunk;
  unmarshalResponse : string -> result ChatCompletionResponse;
  unmarshalTokenResp : string -> result TokenResp
}.

(** ** Error normalizer *)

Definition hint : string :=
  String "010" (String "010"
    "Make sure the model is enabled in your Copilot settings: https://github.com/settings/copilot").

(** [enhanceErrorMessage] *)
Definition enhanceErrorMessage `{Unicode} (message : string) : string :=
  let lower := ToLower message in
  if Contains lower "model" &&
     (Contains lower "not supported" || Contains lower "not available")
  then message ++ hint
  else message.

(** [parseUpstreamError] *)
Definition parseUpstreamError `{JSON} `{Unicode} (body : string) : string :=
  let message :=
    match unmarshalErrResp body with
    | Ok errResp =>
        if negb (String.eqb (Error_Message errResp) "") then Error_Message errResp
        else if negb (String.eqb (Message_ errResp) "") then Message_ errResp
        else ""
    | Fail _ => ""
    end in
  if String.eqb message "" then
    let bodyStr := body in
    let bodyStr :=
      if (500 <? String.length bodyStr)%nat
      then substring 0 500 bodyStr ++ "..."
      else bodyStr in
    if String.eqb bodyStr "" then "unknown error"
    else enhanceErrorMessage bodyStr
  else enhanceErrorMessage message.

(** ** Stream adapter *)

(** Time instants and durations are counted in nanoseconds. *)
Definition Time := Z.
Definition Second : Z := 1000000000.

(** [time.Time.Unix]: whole seconds since the epoch. *)
Definition Unix (t : Time) : Z := t / Second.

(** Arithmetic on [int64] wraps around. *)
Definition int64 (z : Z) : Z := (z + 2 ^ 63) mod 2 ^ 64 - 2 ^ 63.

(** The seconds from year 1, where a [time.Time] counts from, to 1970. *)
Definition unixToInternal : Z := 62135596800.

(** [time.Unix(sec, 0)]: the instant is kept as the seconds since year 1,
    [sec + unixToInternal] in [int64]; a second so large that the sum wraps
    around gives an instant far in the past. *)
Definition time_Unix (sec : Z) : Time :=
  (int64 (sec + unixToInternal) - unixToInternal) * Second.

Definition StatusOK : Z := 200.

(** An HTTP response body: the bytes a full read obtains and the error, if
    any, that ends the read. *)
Record Body := mkBody {
  body_data : string;
  body_err : option error
}.

(** [io.ReadAll] *)
Definition io_ReadAll (b : Body) : string * option error :=
  (body_data b, body_err b).

Record http_Response := mkHTTPResponse {
  StatusCode : Z;
  resp_Body : Body
}.

(** [sse.Event]: the adapter reads its data only. *)
Record Event := mkEvent { Data : string }.

(** Modelled from the spec: [sse.Reader] is declared in [internal/sse],
    outside the sources at hand. A reader yields the event frames still
    pending in the body, one per call, and then the error that ends the
    stream ([io.EOF] at the natural end). *)
Record Reader := mkReader {
  pending : list Event;
  terminal : error
}.

Definition ReadEvent (r : Reader) : result Event * Reader :=
  match pending r with
  | ev :: rest => (Ok ev, mkReader rest (terminal r))
  | [] => (Fail (terminal r), r)
  end.

(** [sse.NewReader]: the frames of a body. *)
Class SSE := { sse_NewReader : Body -> Reader }.

Record Stream := mkStream {
  resp : http_Response;
  reader : option Reader;
  streaming : bool;
  done : bool;
  statusChecked : bool;
  response : option ChatCompletionResponse;
  err : option error
}.

Definition set_reader (r : option Reader) (s : Stream) : Stream :=
  mkStream (resp s) r (streaming s) (done s) (statusChecked s) (response s) (err s).
Definition set_done (b : bool) (s : Stream) : Stream :=
  mkStream (resp s) (reader s) (streaming s) b (statusChecked s) (response s) (err s).
Definition set_statusChecked (b : bool) (s : Stream) : Stream :=
  mkStream (resp s) (reader s) (streaming s) (done s) b (response s) (err s).
Definition set_response (r : option ChatCompletionResponse) (s : Stream) : Stream :=
  mkStream (resp s) (reader s) (streaming s) (done s) (statusChecked s) r (err s).
Definition set_err (e : option error) (s : Stream) : Stream :=
  mkStream (resp s) (reader s) (streaming s) (done s) (statusChecked s) (response s) e.

(** [NewStream] *)
Definition NewStream `{SSE} (resp : http_Response) (streaming : bool) : Stream :=
  let s := mkStream resp None streaming false false None None in
  if streaming then set_reader (Some (sse_NewReader (resp_Body resp))) s else s.

(** [normalizeChunk]; [now] is the reading of [time.Now()]. *)
Definition normalizeChunk (now : Time) (chunk : ChatCompletionChunk) : ChatCompletionChunk :=
  let chunk :=
    if String.eqb (chunk_Object chunk) ""
    then mkChunk "chat.completion.chunk" (chunk_Created chunk) (chunk_rest chunk)
    else chunk in
  if chunk_Created chunk =? 0
  then mkChunk (chunk_Object chunk) (Unix now) (chunk_rest chunk)
  else chunk.

(** [normalizeResponse] *)
Definition normalizeResponse (now : Time) (r : ChatCompletionResponse) : ChatCompletionResponse :=
  let r :=
    if String.eqb (resp_Object r) ""
    then mkResponse "chat.completion" (resp_Created r) (resp_rest r)
    else r in
  if resp_Created r =? 0
  then mkResponse (resp_Object r) (Unix now) (resp_rest r)
  else r.

(** [readNonStreaming]: the error returned and the stream afterwards. *)
Definition readNonStreaming `{JSON} (now : Time) (s : Stream) : error * Stream :=
  let '(body, rerr) := io_ReadAll (resp_Body (resp s)) in
  match rerr with
  | Some e => (e, set_err (Some e) s)
  | None =>
      match unmarshalResponse body with
      | Fail e => (e, set_err (Some e) s)
      | Ok r => (io_EOF, set_response (Some (normalizeResponse now r)) s)
      end
  end.

(** What a call of [Next] hands back: the chunk pointer and the error. *)
Definition NextResult : Type := option ChatCompletionChunk * option error.

(** The [for] loop of [Next]: one iteration per unit of [fuel]. [None] is a
    call that does not return: no reader to read from, or no fuel left. *)
Fixpoint readLoop `{JSON} (fuel : nat) (now : Time) (s : Stream)
    : option (NextResult * Stream) :=
  match fuel with
  | O => None
  | S fuel' =>
      match reader s with
      | None => None
      | Some rd =>
          let '(ev, rd') := ReadEvent rd in
          let s := set_reader (Some rd') s in
          match ev with
          | Fail e =>
              let s := set_done true s in
              let s := if negb (is_EOF e) then set_err (Some e) s else s in
              Some ((None, Some e), s)
          | Ok event =>
              if (String.length (Data event) =? 0)%nat then readLoop fuel' now s
              else match unmarshalChunk (Data event) with
                   | Fail _ => readLoop fuel' now s
                   | Ok chunk => Some ((Some (normalizeChunk now chunk), None), s)
                   end
          end
      end
  end.

(** Iterations [readLoop] can need: one per pending frame and one for the
    end of the stream. *)
Definition loopFuel (s : Stream) : nat :=
  match reader s with
  | Some rd => S (length (pending rd))
  | None => 1
  end.

(** [Next] *)
Definition Next `{JSON} `{Unicode} (now : Time) (s : Stream) : option (NextResult * Stream) :=
  if done s then Some ((None, Some io_EOF), s)
  else if negb (statusChecked s) then
    let s := set_statusChecked true s in
    if negb (StatusCode (resp s) =? StatusOK) then
      let s := set_done true s in
      let '(body, _) := io_ReadAll (resp_Body (resp s)) in
      let e := NewUpstreamError (StatusCode (resp s)) (parseUpstreamError body) in
      let s := set_err (Some e) s in
      Some ((None, Some e), s)
    else if negb (streaming s) then
      let s := set_done true s in
      let '(e, s) := readNonStreaming now s in
      Some ((None, Some e), s)
    else readLoop (loopFuel s) now s
  else readLoop (loopFuel s) now s.

(** [Response] and [Err] *)
Definition Response (s : Stream) : option ChatCompletionResponse := response s.
Definition Err (s : Stream) : option error := err s.

(** Successive calls of [Next], one per clock reading, with the results in
    call order. *)
Fixpoint drain `{JSON} `{Unicode} (clock : list Time) (s : Stream)
    : option (list NextResult * Stream) :=
  match clock with
  | [] => Some ([], s)
  | now :: clock' =>
      match Next now s with
      | None => None
      | Some (r, s') =>
          match drain clock' s' with
          | None => None
          | Some (rs, s'') => Some (r :: rs, s'')
          end
      end
  end.

(** ** Credential broker *)

(** [CopilotToken] *)
Record CopilotToken := mkCopilotToken {
  Token : string;
  ExpiresAt : Time
}.

(** The credentials record of the store: the broker reads its refresh token. *)
Record OAuthCredentials := mkCreds { RefreshToken : string }.

(** What the broker meets outside: the answer of
    [store.GetOAuthCredentials(ProviderID)], and the answer of the HTTP
    client to the exchange request, by the number of exchange requests sent
    before it and the token it carries. *)
Record Env := mkEnv {
  GetOAuthCredentials : result OAuthCredentials;
  httpDo : nat -> string -> result http_Response
}.

(** [Client]: the cached token. [store] and [httpClient] are the two fields
    of [Env]; [mu] is the lock that makes [fastPath] and [slowPath] below
    atomic sections. *)
Record Client := mkClient { copilotToken : option CopilotToken }.

(** The client together with the upstream it talks to: [exchanges] counts
    the requests sent to the token endpoint. *)
Record World := mkWorld {
  client : Client;
  exchanges : nat
}.

(** [getGitHubToken] *)
Definition getGitHubToken (env : Env) : result string :=
  match GetOAuthCredentials env with
  | Fail e => Fail (CredentialsError e)
  | Ok creds =>
      if String.eqb (RefreshToken creds) "" then Fail NoGitHubToken
      else Ok (RefreshToken creds)
  end.

(** [refreshCopilotToken], from the answer of [httpClient.Do] on. *)
Definition refreshCopilotToken `{JSON} (reply : result http_Response) : result CopilotToken :=
  match reply with
  | Fail e => Fail (RequestError e)
  | Ok resp =>
      let '(body, rerr) := io_ReadAll (resp_Body resp) in
      match rerr with
      | Some e => Fail (ReadError e)
      | None =>
          if negb (StatusCode resp =? StatusOK)
          then Fail (TokenStatusError (StatusCode resp) body)
          else match unmarshalTokenResp body with
               | Fail e => Fail (TokenParseError e)
               | Ok tokenResp =>
                   Ok (mkCopilotToken (tr_Token tokenResp)
                                      (time_Unix (tr_ExpiresAt tokenResp)))
               end
      end
  end.

(** The test both paths make:
    [c.copilotToken != nil && time.Now().Add(60*time.Second).Before(c.copilotToken.ExpiresAt)]. *)
Definition tokenValid (now : Time) (c : Client) : bool :=
  match copilotToken c with
  | Some t => now + 60 * Second <? ExpiresAt t
  | None => false
  end.

(** [getCopilotToken] under the read lock: the token when the cache holds a
    valid one. *)
Definition fastPath (now : Time) (c : Client) : option string :=
  if tokenValid now c
  then match copilotToken c with Some t => Some (Token t) | None => None end
  else None.

(** [getCopilotToken] under the write lock. *)
Definition slowPath `{JSON} (env : Env) (now : Time) (w : World) : result string * World :=
  match fastPath now (client w) with
  | Some token => (Ok token, w)
  | None =>
      match getGitHubToken env with
      | Fail e => (Fail e, w)
      | Ok githubToken =>
          let reply := httpDo env (exchanges w) githubToken in
          let w := mkWorld (client w) (S (exchanges w)) in
          match refreshCopilotToken reply with
          | Fail e => (Fail e, w)
          | Ok token => (Ok (Token token), mkWorld (mkClient (Some token)) (exchanges w))
          end
      end
  end.

(** [getCopilotToken] run by one caller alone: [now1] and [now2] are the two
    readings of the clock. *)
Definition getCopilotToken `{JSON} (env : Env) (now1 now2 : Time) (w : World)
    : result string * World :=
  match fastPath now1 (client w) with
  | Some token => (Ok token, w)
  | None => slowPath env now2 w
  end.

(** *** Concurrent callers

    The read-locked section only reads and the write-locked section excludes
    every other section, so a run of several callers is an interleaving of
    their sections, each taken as one step. *)
Inductive pc : Type :=
  | AtRLock
  | AtLock
  | Returned (r : result string).

Record System := mkSystem {
  world : World;
  callers : list pc
}.

(** Caller [i] runs its next section at clock reading [now]. *)
Definition step `{JSON} (env : Env) (sys : System) (sched : nat * Time) : System :=
  let '(i, now) := sched in
  match callers sys !! i with
  | Some AtRLock =>
      match fastPath now (client (world sys)) with
      | Some token => mkSystem (world sys) (<[i := Returned (Ok token)]> (callers sys))
      | None => mkSystem (world sys) (<[i := AtLock]> (callers sys))
      end
  | Some AtLock =>
      let '(r, w) := slowPath env now (world sys) in
      mkSystem w (<[i := Returned r]> (callers sys))
  | _ => sys
  end.

Definition run `{JSON} (env : Env) (schedule : list (nat * Time)) (sys : System) : System :=
  fold_left (step env) schedule sys.

(** [n] callers enter together. *)
Definition race (n : nat) (w : World) : System :=
  mkSystem w (replicate n AtRLock).

Definition returned (p : pc) : bool :=
  match p with Returned _ => true | _ => false end.

Definition allReturned (sys : System) : bool :=
  forallb returned (callers sys).

(** ** Request translator *)

(** Modelled from the spec: [api.Message] and its content parts are declared
    in [internal/api], outside the sources at hand. A message has a role and
    an ordered sequence of content parts, each tagged by a type; whatever
    else a message or a part holds is carried along as one value. *)
Record ContentPart := mkPart {
  part_Type : string;
  part_value : string
}.

Record Message := mkMessage {
  Role : string;
  Content : list ContentPart;
  msg_rest : string
}.

Definition GetContentParts (msg : Message) : list ContentPart := Content msg.

(** The inner loop of [hasImageContent]. *)
Fixpoint hasImagePart (parts : list ContentPart) : bool :=
  match parts with
  | [] => false
  | part :: parts' =>
      if String.eqb (part_Type part) "image_url" || String.eqb (part_Type part) "image"
      then true
      else hasImagePart parts'
  end.

(** [hasImageContent] *)
Fixpoint hasImageContent (messages : list Message) : bool :=
  match messages with
  | [] => false
  | msg :: messages' =>
      if hasImagePart (GetContentParts msg) then true
      else hasImageContent messages'
  end.

(** [getInitiator] *)
Fixpoint getInitiator (messages : list Message) : string :=
  match messages with
  | [] => "user"
  | msg :: messages' =>
      if String.eqb (Role msg) "assistant" || String.eqb (Role msg) "tool"
      then "agent"
      else getInitiator messages'
  end.

(** *** Slices of messages

    [transformMessages] writes into a slice, so slices live in a heap of
    backing arrays: a slice is the address of its array and its length. *)
Definition loc := nat.

Record slice := mkSlice {
  ptr : loc;
  len : nat
}.

(** The zero value of [api.Message], what [make] fills a new array with. *)
Definition zeroMessage : Message := mkMessage "" [] "".

(** [make([]api.Message, n)]: a new array at an address not in use. *)
Definition make (h : gmap loc (list Message)) (n : nat) : gmap loc (list Message) * slice :=
  let p := fresh (dom h) in
  (<[p := replicate n zeroMessage]> h, mkSlice p n).

(** [s[i]]; [None] is the index-out-of-range panic. *)
Definition index (h : gmap loc (list Message)) (s : slice) (i : nat) : option Message :=
  if (i <? len s)%nat then h !! ptr s ≫= (.!! i) else None.

(** [s[i] = v] *)
Definition assign (h : gmap loc (list Message)) (s : slice) (i : nat) (v : Message)
    : option (gmap loc (list Message)) :=
  if (i <? len s)%nat then
    match h !! ptr s with
    | Some arr => if (i <? length arr)%nat then Some (<[ptr s := <[i := v]> arr]> h) else None
    | None => None
    end
  else None.

(** The messages a slice holds. *)
Definition contents (h : gmap loc (list Message)) (s : slice) : option (list Message) :=
  arr ← h !! ptr s; if (len s <=? length arr)%nat then Some (take (len s) arr) else None.

(** The loop of [transformMessages] over the indices still to visit. *)
Fixpoint transformLoop (h : gmap loc (list Message)) (messages result : slice)
    (indices : list nat) : option (gmap loc (list Message)) :=
  match indices with
  | [] => Some h
  | i :: indices' =>
      msg ← index h messages i;
      h ← assign h result i msg;
      h ← (if String.eqb (Role msg) "system"
           then r ← index h result i;
                assign h result i (mkMessage "assistant" (Content r) (msg_rest r))
           else Some h);
      transformLoop h messages result indices'
  end.

(** [transformMessages] *)
Definition transformMessages (h : gmap loc (list Message)) (messages : slice)
    : option (gmap loc (list Message) * slice) :=
  let '(h, result) := make h (len messages) in
  h ← transformLoop h messages result (seq 0 (len messages));
  Some (h, result).

(** The role [transformMessages] gives a message of role [r]. *)
Definition remapRole (r : string) : string :=
  if String.eqb r "system" then "assistant" else r.

(** ** A sample environment

    A decoder and a frame reader to run the model on concrete bodies. The
    decoder knows the JSON texts listed here; the other bodies used below
    are not JSON, and it rejects them. *)

Definition quote : string := String "034" "".

(** A JSON object with one member per pair, each value a string. *)
Fixpoint members (kvs : list (string * string)) : string :=
  match kvs with
  | [] => ""
  | [(k, v)] => quote ++ k ++ quote ++ ":" ++ quote ++ v ++ quote
  | (k, v) :: kvs' => quote ++ k ++ quote ++ ":" ++ quote ++ v ++ quote ++ "," ++ members kvs'
  end.

(** The error body with a nested and a top-level message. *)
Definition bothMessagesBody : string :=
  "{" ++ quote ++ "error" ++ quote ++ ":{" ++ members [("message", "model not available")]
      ++ "}," ++ members [("message", "request failed")] ++ "}".

(** The answer of the token endpoint: a token that expires at second 5000. *)
Definition tokenBody : string :=
  "{" ++ members [("token", "tid=1")] ++ "," ++ quote ++ "expires_at" ++ quote ++ ":5000}".

(** An error body whose error member is a string, not an object, beside a
    top-level message: decoding it reports the mismatch. *)
Definition stringErrorBody : string :=
  "{" ++ members [("error", "quota"); ("message", "request failed")] ++ "}".

Definition syntaxError : error := External "invalid character".
Definition typeError : error := External "cannot unmarshal string into Go struct field".

Definition sampleJSON : JSON := {|
  unmarshalErrResp body :=
    if String.eqb body "{}" then Ok (mkErrResp "" "")
    else if String.eqb body bothMessagesBody
         then Ok (mkErrResp "model not available" "request failed")
         else if String.eqb body stringErrorBody then Fail typeError
              else Fail syntaxError;
  unmarshalChunk body :=
    if String.eqb body "{}" then Ok (mkChunk "" 0 "") else Fail syntaxError;
  unmarshalResponse body :=
    if String.eqb body "{}" then Ok (mkResponse "" 0 "") else Fail syntaxError;
  unmarshalTokenResp body :=
    if String.eqb body "{}" then Ok (mkTokenResp "" 0)
    else if String.eqb body tokenBody then Ok (mkTokenResp "tid=1" 5000)
         else Fail syntaxError
|}.

(** The characters of a UTF-8 text: the bytes that do not continue a
    character (those from 0x80 to 0xBF do). *)
Fixpoint characters (s : string) : nat :=
  match s with
  | EmptyString => 0
  | String c s' =>
      let n := nat_of_ascii c in
      ((if (128 <=? n) && (n <? 192) then 0 else 1) + characters s')%nat
  end.

(** The letter e with an acute accent, U+00E9, two bytes long. *)
Definition eAcute : string := String "195" (String "169" "").

Fixpoint repeatString (n : nat) (s : string) : string :=
  match n with
  | O => ""
  | S n' => s ++ repeatString n' s
  end.

(** The bytes of the capital I with a dot, U+0130. *)
Definition dottedI : string := String "196" (String "176" "").

(** Of the tables this instance knows one entry, the one that gives an
    ASCII letter: U+0130 is lowered to i. The texts it is used on below
    hold no other letter beyond ASCII that has a lower case. *)
Fixpoint lowerDottedI (s : string) : string :=
  match s with
  | String "196" (String "176" s') => String "i" (lowerDottedI s')
  | String c s' => String c (lowerDottedI s')
  | EmptyString => EmptyString
  end.

Definition sampleUnicode : Unicode := {| Map_ToLower := lowerDottedI |}.

(** The lines of a text. *)
Fixpoint lines (line text : string) : list string :=
  match text with
  | EmptyString => [line]
  | String c text' =>
      if Ascii.eqb c "010" then line :: lines "" text'
      else lines (line ++ String c "") text'
  end.

(** A reader whose frames are the lines of the body. *)
Definition sampleSSE : SSE := {|
  sse_NewReader body :=
    mkReader (map mkEvent (lines "" (body_data body)))
             (match body_err body with Some e => e | None => io_EOF end)
|}.

(** * Properties *)

(** ** Strings *)

Lemma prefix_app (p s : string) :
  String.prefix p s = true <-> exists post, s = p ++ post.
Proof.
  revert s; induction p as [|c p IH]; intros s.
  - split; [intros _; exists s; reflexivity | intros _; destruct s; reflexivity].
  - destruct s as [|d s]; simpl.
    + split; [discriminate | intros [post Hpost]; discriminate].
    + destruct (Ascii.ascii_dec c d) as [->|Hcd].
      * rewrite IH. split; intros [post Hpost]; exists post.
        -- now rewrite Hpost.
        -- now inversion Hpost.
      * split; [discriminate | intros [post Hpost]; inversion Hpost; congruence].
Qed.

(** [Contains] decides the occurrence of [substr] somewhere in [s]. *)
Lemma Contains_occurs (s substr : string) :
  Contains s substr = true <-> exists pre post, s = pre ++ substr ++ post.
Proof.
  induction s as [|c s IH]; cbn [Contains].
  - destruct (String.prefix substr "") eqn:Hp.
    + apply prefix_app in Hp as [post Hpost].
      split; [intros _; exists "", post; exact Hpost | reflexivity].
    + split; [discriminate|].
      intros [pre [post Heq]]. destruct pre; [|discriminate].
      assert (String.prefix substr "" = true) by (apply prefix_app; eauto).
      congruence.
  - destruct (String.prefix substr (String c s)) eqn:Hp.
    + apply prefix_app in Hp as [post Hpost].
      split; [intros _; exists "", post; exact Hpost | reflexivity].
    + rewrite IH. split.
      * intros [pre [post Heq]]. exists (String c pre), post. now rewrite Heq.
      * intros [pre [post Heq]]. destruct pre as [|d pre].
        -- assert (String.prefix substr (String c s) = true) by (apply prefix_app; eauto).
           congruence.
        -- inversion Heq; subst. eauto.
Qed.

Lemma length_append (s t : string) :
  String.length (s ++ t) = (String.length s + String.length t)%nat.
Proof. induction s; simpl; congruence. Qed.

Lemma length_substring_0 (n : nat) (s : string) :
  (n <= String.length s)%nat -> String.length (substring 0 n s) = n.
Proof.
  revert s; induction n as [|n IH]; intros s Hn.
  - destruct s; reflexivity.
  - destruct s as [|c s]; simpl in *; [lia|]. rewrite IH; [reflexivity | lia].
Qed.

Lemma substring_0_prefix (n : nat) (s : string) :
  exists post, s = substring 0 n s ++ post.
Proof.
  revert s; induction n as [|n IH]; intros s.
  - exists s. destruct s; reflexivity.
  - destruct s as [|c s]; simpl.
    + exists "". reflexivity.
    + destruct (IH s) as [post Hpost]. exists post. now rewrite <- Hpost.
Qed.

Lemma eqb_empty_length (s : string) :
  String.eqb s "" = false <-> (0 < String.length s)%nat.
Proof. destruct s; simpl; split; intros; try lia; congruence. Qed.

(** ** Error normalizer *)

(** The condition of the hint pass, in the words of the specification: the
    message, lowered, mentions "model" together with "not supported" or
    "not available". *)
Definition mentions `{Unicode} (message word : string) : Prop :=
  exists pre post, ToLower message = pre ++ word ++ post.

Definition wantsHint `{Unicode} (message : string) : Prop :=
  mentions message "model" /\
  (mentions message "not supported" \/ mentions message "not available").

Lemma enhanceErrorMessage_hint `{Unicode} (message : string) :
  (wantsHint message -> enhanceErrorMessage message = message ++ hint) /\
  (~ wantsHint message -> enhanceErrorMessage message = message).
Proof.
  unfold enhanceErrorMessage, wantsHint, mentions.
  destruct (Contains (ToLower message) "model") eqn:Hm;
    destruct (Contains (ToLower message) "not supported") eqn:Hs;
    destruct (Contains (ToLower message) "not available") eqn:Ha; simpl;
    split; intros Hw; try reflexivity; exfalso.
  all: repeat match goal with
       | H : Contains _ _ = true |- _ => apply Contains_occurs in H
       | H : Contains _ ?w = false |- _ =>
           assert (~ exists pre post, ToLower message = pre ++ w ++ post)
             by (rewrite <- Contains_occurs; congruence); clear H
       end; tauto.
Qed.

Lemma enhanceErrorMessage_length `{Unicode} (message : string) :
  (String.length message <= String.length (enhanceErrorMessage message))%nat.
Proof.
  unfold enhanceErrorMessage.
  destruct (_ && _); [rewrite length_append|]; lia.
Qed.

(** C4, as the code has it. The error normalizer takes the nested error
    message when the body decodes without error and has one, else the
    top-level message when that one is not empty; when decoding fails or
    neither gives a message it takes the raw body, cut to its first 500
    bytes followed by "..." when it is longer than 500 bytes, or returns
    "unknown error" for the empty body. On the message so chosen the
    remediation hint is appended exactly when the message, lowered by
    [strings.ToLower], holds "model" together with "not supported" or
    "not available"; "file not available" gets none. *)
Theorem parseUpstreamError_spec `{JSON} `{Unicode} (body : string) :
  (forall r, unmarshalErrResp body = Ok r ->
     (0 < String.length (Error_Message r))%nat ->
     parseUpstreamError body = enhanceErrorMessage (Error_Message r))
  /\ (forall r, unmarshalErrResp body = Ok r ->
     Error_Message r = "" -> (0 < String.length (Message_ r))%nat ->
     parseUpstreamError body = enhanceErrorMessage (Message_ r))
  /\ ((forall r, unmarshalErrResp body = Ok r -> Error_Message r = "" /\ Message_ r = "") ->
      (body = "" -> parseUpstreamError body = "unknown error")
      /\ ((0 < String.length body <= 500)%nat ->
          parseUpstreamError body = enhanceErrorMessage body)
      /\ ((500 < String.length body)%nat ->
          parseUpstreamError body = enhanceErrorMessage (substring 0 500 body ++ "...")
          /\ String.length (substring 0 500 body) = 500%nat
          /\ exists post, body = substring 0 500 body ++ post))
  /\ (forall message,
        (wantsHint message -> enhanceErrorMessage message = message ++ hint)
        /\ (~ wantsHint message -> enhanceErrorMessage message = message))
  /\ enhanceErrorMessage "file not available" = "file not available"
  /\ enhanceErrorMessage "Model gpt-x is Not Available"
     = "Model gpt-x is Not Available" ++ hint.
Proof.
  split; [|split; [|split; [|split; [|split]]]].
  - intros r Hr Hlen. unfold parseUpstreamError. rewrite Hr.
    apply eqb_empty_length in Hlen. rewrite Hlen. simpl. now rewrite Hlen.
  - intros r Hr Hnested Hlen. unfold parseUpstreamError. rewrite Hr, Hnested.
    apply eqb_empty_length in Hlen. simpl. rewrite Hlen. simpl. now rewrite Hlen.
  - intros Hnone. unfold parseUpstreamError.
    assert (Hmsg : match unmarshalErrResp body with
                   | Ok errResp =>
                       if negb (String.eqb (Error_Message errResp) "") then Error_Message errResp
                       else if negb (String.eqb (Message_ errResp) "") then Message_ errResp
                       else ""
                   | Fail _ => ""
                   end = "").
    { destruct (unmarshalErrResp body) as [r|e] eqn:Hr; [|reflexivity].
      destruct (Hnone r eq_refl) as [-> ->]. reflexivity. }
    rewrite Hmsg. clear Hmsg Hnone. simpl. split; [|split].
    + intros ->. reflexivity.
    + intros [Hpos Hle].
      assert ((500 <? String.length body)%nat = false) as -> by (apply Nat.ltb_ge; lia).
      apply eqb_empty_length in Hpos. now rewrite Hpos.
    + intros Hlong.
      assert ((500 <? String.length body)%nat = true) as -> by (apply Nat.ltb_lt; lia).
      split; [|split].
      * assert (String.eqb (substring 0 500 body ++ "...") "" = false) as ->; [|reflexivity].
        apply eqb_empty_length. rewrite length_append. simpl. lia.
      * apply length_substring_0. lia.
      * apply substring_0_prefix.
  - apply enhanceErrorMessage_hint.
  - reflexivity.
  - reflexivity.
Qed.

(** The body with both messages, under the sample decoder: the nested one
    wins, and the hint follows it. *)
Lemma parseUpstreamError_spec_witness :
  @parseUpstreamError sampleJSON sampleUnicode bothMessagesBody = "model not available" ++ hint.
Proof.
  exact (proj1 (@parseUpstreamError_spec sampleJSON sampleUnicode bothMessagesBody)
           (mkErrResp "model not available" "request failed") eq_refl
           (Nat.lt_0_succ _)).
Defined.

(** A message with U+0130 in place of the i of available: lowered, it
    holds "model" and "not available", and the hint follows. *)
Lemma enhanceErrorMessage_dotted_I :
  @enhanceErrorMessage sampleUnicode ("model not ava" ++ dottedI ++ "lable")
  = ("model not ava" ++ dottedI ++ "lable") ++ hint.
Proof. reflexivity. Qed.

(** C4 as stated fails. A body of 300 characters, each two bytes long, is
    not longer than 500 characters, yet it is cut: the message is its first
    500 bytes, 250 characters, and the dots. And a body with a top-level
    message beside an error member that is a string does not decode without
    error, so the message is the raw body and not the top-level message. *)
Lemma parseUpstreamError_cuts_bytes :
  characters (repeatString 300 eAcute) = 300%nat
  /\ String.length (repeatString 300 eAcute) = 600%nat
  /\ @parseUpstreamError sampleJSON sampleUnicode (repeatString 300 eAcute)
     = repeatString 250 eAcute ++ "..."
  /\ characters (repeatString 250 eAcute) = 250%nat
  /\ @unmarshalErrResp sampleJSON stringErrorBody = Fail typeError
  /\ @parseUpstreamError sampleJSON sampleUnicode stringErrorBody = stringErrorBody.
Proof. vm_compute. repeat split. Qed.

(** C10. Whatever the body and whatever it decodes to, the message the
    error normalizer returns is not empty, and so neither is the message of
    the UpstreamError built from it. *)
Theorem parseUpstreamError_nonempty `{JSON} `{Unicode} (status : Z) (body : string) :
  (0 < String.length (parseUpstreamError body))%nat
  /\ exists message,
       NewUpstreamError status (parseUpstreamError body) = UpstreamError status message
       /\ (0 < String.length message)%nat.
Proof.
  assert (Hpos : (0 < String.length (parseUpstreamError body))%nat).
  { unfold parseUpstreamError.
    set (message := match unmarshalErrResp body with
                    | Ok errResp =>
                        if negb (String.eqb (Error_Message errResp) "") then Error_Message errResp
                        else if negb (String.eqb (Message_ errResp) "") then Message_ errResp
                        else ""
                    | Fail _ => ""
                    end).
    destruct (String.eqb message "") eqn:Hmsg.
    - cbv zeta.
      destruct (String.eqb (if (500 <? String.length body)%nat
                            then substring 0 500 body ++ "..." else body) "") eqn:Hbody.
      + simpl. lia.
      + apply eqb_empty_length in Hbody.
        eapply Nat.lt_le_trans; [exact Hbody | apply enhanceErrorMessage_length].
    - apply eqb_empty_length in Hmsg.
      eapply Nat.lt_le_trans; [exact Hmsg | apply enhanceErrorMessage_length]. }
  split; [exact Hpos|].
  exists (parseUpstreamError body). split; [reflexivity | exact Hpos].
Qed.

(** ** Request translator *)

(** A message of a follow-up turn: its role is assistant or tool. *)
Definition followUp (msg : Message) : Prop :=
  Role msg = "assistant" \/ Role msg = "tool".

(** C8. The initiator is "user" exactly for the sequences where no message
    has role assistant or tool, and "agent" exactly for those where some
    message has. *)
Theorem getInitiator_spec (messages : list Message) :
  (getInitiator messages = "user" <-> Forall (fun msg => ~ followUp msg) messages)
  /\ (getInitiator messages = "agent" <-> Exists followUp messages).
Proof.
  unfold followUp. induction messages as [|msg messages [IHu IHa]]; simpl.
  - split; split; intros Hx; try constructor; try discriminate. inversion Hx.
  - destruct (String.eqb (Role msg) "assistant") eqn:Ha; simpl.
    + apply String.eqb_eq in Ha.
      split; split; intros Hx; try discriminate; try reflexivity.
      * inversion Hx; subst. tauto.
      * constructor. tauto.
    + apply String.eqb_neq in Ha.
      destruct (String.eqb (Role msg) "tool") eqn:Ht.
      * apply String.eqb_eq in Ht.
        split; split; intros Hx; try discriminate; try reflexivity.
        -- inversion Hx; subst. tauto.
        -- constructor. tauto.
      * apply String.eqb_neq in Ht.
        split; split; intros Hx.
        -- constructor; [tauto | now apply IHu].
        -- inversion Hx; subst. now apply IHu.
        -- apply Exists_cons_tl. now apply IHa.
        -- inversion Hx; subst; [tauto | now apply IHa].
Qed.

(** A content part of an image type. *)
Definition imagePart (part : ContentPart) : Prop :=
  part_Type part = "image_url" \/ part_Type part = "image".

Lemma hasImagePart_spec (parts : list ContentPart) :
  hasImagePart parts = true <-> Exists imagePart parts.
Proof.
  unfold imagePart. induction parts as [|part parts IH]; simpl.
  - split; [discriminate | intros Hx; inversion Hx].
  - destruct (String.eqb (part_Type part) "image_url") eqn:Hu; simpl.
    + apply String.eqb_eq in Hu. split; [constructor; tauto | reflexivity].
    + apply String.eqb_neq in Hu.
      destruct (String.eqb (part_Type part) "image") eqn:Hi.
      * apply String.eqb_eq in Hi. split; [constructor; tauto | reflexivity].
      * apply String.eqb_neq in Hi. rewrite IH. split; intros Hx.
        -- now apply Exists_cons_tl.
        -- inversion Hx; subst; [tauto | assumption].
Qed.

(** C9. The vision flag is true exactly when some content part of some
    message has an image type; it is false exactly when no part of any
    message has, and one image part anywhere in the sequence makes it true. *)
Theorem hasImageContent_spec (messages : list Message) :
  (hasImageContent messages = true
     <-> Exists (fun msg => Exists imagePart (GetContentParts msg)) messages)
  /\ (hasImageContent messages = false
     <-> Forall (fun msg => Forall (fun part => ~ imagePart part) (GetContentParts msg)) messages)
  /\ (forall before after role rest parts_before parts_after part,
        imagePart part ->
        messages
          = (before ++ mkMessage role (parts_before ++ part :: parts_after) rest :: after)%list ->
        hasImageContent messages = true).
Proof.
  assert (Htrue : forall ms, hasImageContent ms = true
     <-> Exists (fun msg => Exists imagePart (GetContentParts msg)) ms).
  { induction ms as [|msg ms IH]; simpl.
    - split; [discriminate | intros Hx; inversion Hx].
    - destruct (hasImagePart (GetContentParts msg)) eqn:Hp.
      + apply hasImagePart_spec in Hp. split; [now constructor | reflexivity].
      + rewrite IH. split; intros Hx.
        * now apply Exists_cons_tl.
        * inversion Hx as [m l Hhead | m l Htail]; subst; [|assumption].
          apply hasImagePart_spec in Hhead. congruence. }
  split; [apply Htrue | split].
  - rewrite <- Bool.not_true_iff_false, Htrue.
    rewrite <- Forall_Exists_neg.
    split; intros Hall; eapply Forall_impl; try exact Hall; simpl; intros msg Hmsg.
    + now apply Forall_Exists_neg.
    + now apply Forall_Exists_neg.
  - intros before after role rest pb pa part Himg ->.
    apply Htrue. apply Exists_app. right. constructor. simpl.
    apply Exists_app. right. now constructor.
Qed.

(** ** Stream adapter *)

Lemma Next_done `{JSON} `{Unicode} (now : Time) (s : Stream) :
  done s = true -> Next now s = Some ((None, Some io_EOF), s).
Proof. intros Hdone. unfold Next. now rewrite Hdone. Qed.

(** Once the stream is done every call reports the end of the stream. *)
Lemma drain_done `{JSON} `{Unicode} (clock : list Time) (s : Stream) :
  done s = true ->
  drain clock s = Some (replicate (length clock) (None, Some io_EOF), s).
Proof.
  intros Hdone. induction clock as [|now clock IH]; simpl; [reflexivity|].
  rewrite (Next_done now s Hdone), IH. reflexivity.
Qed.



(** A frame [Next] passes over: its data is empty or does not decode. *)
Definition skippable `{JSON} (event : Event) : Prop :=
  Data event = "" \/ exists e, unmarshalChunk (Data event) = Fail e.

Lemma set_reader_same (s : Stream) (rd : Reader) :
  reader s = Some rd -> set_reader (Some (mkReader (pending rd) (terminal rd))) s = s.
Proof. destruct s, rd; simpl; intros ->; reflexivity. Qed.

(** The loop passes over the skippable frames at the head of the reader. *)
Lemma readLoop_skip `{JSON} (now : Time) (skipped : list Event) :
  Forall skippable skipped ->
  forall fuel s rd rest,
    reader s = Some rd ->
    pending rd = (skipped ++ rest)%list ->
    readLoop (length skipped + fuel) now s
    = readLoop fuel now (set_reader (Some (mkReader rest (terminal rd))) s).
Proof.
  induction 1 as [|event skipped Hskip _ IH]; intros fuel s rd rest Hrd Hpending.
  - simpl in *. rewrite <- Hpending, set_reader_same; auto.
  - cbn [length Nat.add readLoop]. rewrite Hrd. unfold ReadEvent. rewrite Hpending.
    cbn [app].
    assert (Hloop : readLoop (length skipped + fuel) now
                      (set_reader (Some (mkReader (skipped ++ rest) (terminal rd))) s)
                    = readLoop fuel now (set_reader (Some (mkReader rest (terminal rd))) s)).
    { erewrite IH; [| reflexivity | reflexivity]. reflexivity. }
    destruct Hskip as [Hempty | [e He]].
    + rewrite Hempty. simpl. exact Hloop.
    + rewrite He. destruct (String.length (Data event) =? 0)%nat; exact Hloop.
Qed.

(** The state in which [Next] runs its loop. *)
Definition reading (s : Stream) : Prop :=
  done s = false
  /\ (statusChecked s = true
      \/ (StatusCode (resp s) = StatusOK /\ streaming s = true)).

Lemma Next_reading `{JSON} `{Unicode} (now : Time) (s : Stream) :
  reading s ->
  Next now s = readLoop (loopFuel s) now (set_statusChecked true s).
Proof.
  intros [Hdone [Hchecked | [Hstatus Hstreaming]]]; unfold Next; rewrite Hdone.
  - rewrite Hchecked. simpl. destruct s; simpl in *; subst; reflexivity.
  - destruct (statusChecked s) eqn:Hchecked; simpl.
    + destruct s; simpl in *; subst; reflexivity.
    + rewrite Hstatus, Hstreaming. reflexivity.
Qed.

(** [Next] on a reading stream: the frames passed over, then a chunk. *)
Lemma Next_yields `{JSON} `{Unicode} (now : Time) (s : Stream) (rd : Reader)
    (skipped rest : list Event) (event : Event) (chunk : ChatCompletionChunk) :
  reading s ->
  reader s = Some rd ->
  pending rd = (skipped ++ event :: rest)%list ->
  Forall skippable skipped ->
  (0 < String.length (Data event))%nat ->
  unmarshalChunk (Data event) = Ok chunk ->
  Next now s
  = Some ((Some (normalizeChunk now chunk), None),
          set_reader (Some (mkReader rest (terminal rd))) (set_statusChecked true s)).
Proof.
  intros Hreading Hrd Hpending Hskipped Hdata Hchunk.
  rewrite Next_reading by assumption.
  unfold loopFuel. rewrite Hrd, Hpending, length_app. cbn [length].
  replace (S (length skipped + S (length rest)))
    with (length skipped + S (S (length rest)))%nat by lia.
  erewrite readLoop_skip; [| eassumption | simpl; exact Hrd | exact Hpending].
  cbn [readLoop reader set_reader]. unfold ReadEvent. cbn [pending terminal].
  rewrite Hchunk.
  destruct (String.length (Data event) =? 0)%nat eqn:Hzero.
  - apply Nat.eqb_eq in Hzero. lia.
  - reflexivity.
Qed.

(** [Next] on a reading stream: nothing but frames to pass over, then the end
    of the stream. *)
Lemma Next_exhausts `{JSON} `{Unicode} (now : Time) (s : Stream) (rd : Reader) :
  reading s ->
  reader s = Some rd ->
  Forall skippable (pending rd) ->
  Next now s
  = Some ((None, Some (terminal rd)),
          (if is_EOF (terminal rd) then (fun s => s) else set_err (Some (terminal rd)))
            (set_done true
               (set_reader (Some (mkReader [] (terminal rd))) (set_statusChecked true s)))).
Proof.
  intros Hreading Hrd Hskipped.
  rewrite Next_reading by assumption.
  unfold loopFuel. rewrite Hrd.
  replace (S (length (pending rd))) with (length (pending rd) + 1)%nat by lia.
  erewrite readLoop_skip; [| eassumption | simpl; exact Hrd | now rewrite app_nil_r].
  cbn [readLoop reader set_reader]. unfold ReadEvent. cbn [pending terminal].
  destruct (is_EOF (terminal rd)); reflexivity.
Qed.

Lemma normalizeChunk_fields (now : Time) (chunk : ChatCompletionChunk) :
  chunk_Object (normalizeChunk now chunk)
    = (if String.eqb (chunk_Object chunk) "" then "chat.completion.chunk"
       else chunk_Object chunk)
  /\ chunk_Created (normalizeChunk now chunk)
    = (if chunk_Created chunk =? 0 then Unix now else chunk_Created chunk)
  /\ chunk_rest (normalizeChunk now chunk) = chunk_rest chunk.
Proof.
  unfold normalizeChunk.
  destruct (String.eqb (chunk_Object chunk) ""); simpl;
    destruct (chunk_Created chunk =? 0); simpl; auto.
Qed.

(** A streaming body with one frame that decodes among frames to pass over:
    two calls give that chunk and then the end of the stream. *)
Lemma drain_one_chunk `{JSON} `{Unicode} `{SSE} (upstream : http_Response)
    (before after : list Event) (good : Event) (chunk : ChatCompletionChunk)
    (t1 t2 : Time) :
  StatusCode upstream = StatusOK ->
  sse_NewReader (resp_Body upstream) = mkReader (before ++ good :: after) io_EOF ->
  Forall skippable before ->
  Forall skippable after ->
  (0 < String.length (Data good))%nat ->
  unmarshalChunk (Data good) = Ok chunk ->
  exists s',
    drain [t1; t2] (NewStream upstream true)
    = Some ([(Some (normalizeChunk t1 chunk), None); (None, Some io_EOF)], s')
    /\ Err s' = None /\ done s' = true.
Proof.
  intros Hstatus Hreader Hbefore Hafter Hdata Hchunk.
  eexists. cbn [drain].
  erewrite (Next_yields t1 (NewStream upstream true)); cycle 1.
  - split; [reflexivity | right; split; [exact Hstatus | reflexivity]].
  - unfold NewStream. cbn [reader set_reader]. rewrite Hreader. reflexivity.
  - reflexivity.
  - exact Hbefore.
  - exact Hdata.
  - exact Hchunk.
  - erewrite Next_exhausts; cycle 1.
    + split; [reflexivity | left; reflexivity].
    + reflexivity.
    + exact Hafter.
    + cbn. split; [reflexivity | split; reflexivity].
Qed.

(** C3. In streaming mode on status 200, [Next] passes over every frame
    whose data is empty or does not decode as a chunk and returns the first
    chunk that decodes, with its object kind and creation time filled in
    when missing. For a body with one empty frame, one malformed frame and
    one well-formed frame, the calls of [Next] give that one chunk and then
    the end-of-stream signal. *)
Theorem Next_streaming_spec `{JSON} `{Unicode} `{SSE} :
  (forall now s rd skipped rest event chunk,
     reading s ->
     reader s = Some rd ->
     pending rd = (skipped ++ event :: rest)%list ->
     Forall skippable skipped ->
     (0 < String.length (Data event))%nat ->
     unmarshalChunk (Data event) = Ok chunk ->
     Next now s
     = Some ((Some (normalizeChunk now chunk), None),
             set_reader (Some (mkReader rest (terminal rd))) (set_statusChecked true s)))
  /\ (forall now chunk,
     chunk_Object (normalizeChunk now chunk)
       = (if String.eqb (chunk_Object chunk) "" then "chat.completion.chunk"
          else chunk_Object chunk)
     /\ chunk_Created (normalizeChunk now chunk)
       = (if chunk_Created chunk =? 0 then Unix now else chunk_Created chunk)
     /\ chunk_rest (normalizeChunk now chunk) = chunk_rest chunk)
  /\ (forall upstream before after good chunk t1 t2,
     StatusCode upstream = StatusOK ->
     sse_NewReader (resp_Body upstream) = mkReader (before ++ good :: after) io_EOF ->
     Forall skippable before ->
     Forall skippable after ->
     (0 < String.length (Data good))%nat ->
     unmarshalChunk (Data good) = Ok chunk ->
     exists s',
       drain [t1; t2] (NewStream upstream true)
       = Some ([(Some (normalizeChunk t1 chunk), None); (None, Some io_EOF)], s')
       /\ Err s' = None /\ done s' = true)
  /\ (forall upstream empty malformed good e chunk t1 t2,
     StatusCode upstream = StatusOK ->
     sse_NewReader (resp_Body upstream) = mkReader [empty; malformed; good] io_EOF ->
     Data empty = "" ->
     unmarshalChunk (Data malformed) = Fail e ->
     (0 < String.length (Data good))%nat ->
     unmarshalChunk (Data good) = Ok chunk ->
     exists s',
       drain [t1; t2] (NewStream upstream true)
       = Some ([(Some (normalizeChunk t1 chunk), None); (None, Some io_EOF)], s')
       /\ Err s' = None /\ done s' = true).
Proof.
  split; [|split; [|split]].
  - intros. now apply Next_yields with (skipped := skipped) (event := event).
  - apply normalizeChunk_fields.
  - intros. now apply drain_one_chunk with (before := before) (after := after) (good := good).
  - intros upstream empty malformed good e chunk t1 t2 Hstatus Hreader Hempty Hbad Hdata Hchunk.
    apply drain_one_chunk with (before := [empty; malformed]) (after := []) (good := good);
      auto.
    constructor; [left; exact Hempty|].
    constructor; [right; eauto | constructor].
Qed.

(** The frames of the sample stream: an empty one, a malformed one and a
    well-formed one. *)
Lemma Next_streaming_spec_witness :
  exists s',
    @drain sampleJSON sampleUnicode [1700000000 * Second; 1700000001 * Second]
      (@NewStream sampleSSE
         (mkHTTPResponse 200 (mkBody (String "010" ("oops" ++ String "010" "{}")) None)) true)
    = Some ([(Some (mkChunk "chat.completion.chunk" 1700000000 ""), None);
             (None, Some io_EOF)], s')
    /\ Err s' = None /\ done s' = true.
Proof.
  apply (proj2 (proj2 (proj2 (@Next_streaming_spec sampleJSON sampleUnicode sampleSSE)))
           (mkHTTPResponse 200 (mkBody (String "010" ("oops" ++ String "010" "{}")) None))
           (mkEvent "") (mkEvent "oops") (mkEvent "{}") syntaxError (mkChunk "" 0 "")
           (1700000000 * Second) (1700000001 * Second));
    solve [reflexivity | simpl; lia].
Defined.

Lemma normalizeResponse_fields (now : Time) (r : ChatCompletionResponse) :
  resp_Object (normalizeResponse now r)
    = (if String.eqb (resp_Object r) "" then "chat.completion" else resp_Object r)
  /\ resp_Created (normalizeResponse now r)
    = (if resp_Created r =? 0 then Unix now else resp_Created r)
  /\ resp_rest (normalizeResponse now r) = resp_rest r.
Proof.
  unfold normalizeResponse.
  destruct (String.eqb (resp_Object r) ""); simpl;
    destruct (resp_Created r =? 0); simpl; auto.
Qed.

(** C5, as the code has it. On a non-streaming call with status 200 whose
    body is read to its end and decodes as a response, the first call of
    [Next] returns the end-of-stream signal with no chunk, as does every
    later call, and [Response] then returns the decoded response with its
    object kind not empty and, the clock reading a second other than 0, its
    creation time not zero, whether or not the body gave them. *)
Theorem Next_nonStreaming `{JSON} `{Unicode} `{SSE}
    (upstream : http_Response) (r : ChatCompletionResponse) (now : Time) (clock : list Time) :
  StatusCode upstream = StatusOK ->
  body_err (resp_Body upstream) = None ->
  unmarshalResponse (body_data (resp_Body upstream)) = Ok r ->
  Unix now <> 0 ->
  exists s',
    drain (now :: clock) (NewStream upstream false)
    = Some ((None, Some io_EOF) :: replicate (length clock) (None, Some io_EOF), s')
    /\ Response s' = Some (normalizeResponse now r)
    /\ Err s' = None
    /\ (0 < String.length (resp_Object (normalizeResponse now r)))%nat
    /\ resp_Created (normalizeResponse now r) <> 0
    /\ resp_rest (normalizeResponse now r) = resp_rest r.
Proof.
  intros Hstatus Hread Hdecode Hclock.
  assert (Hnext : Next now (NewStream upstream false)
            = Some ((None, Some io_EOF),
                    set_response (Some (normalizeResponse now r))
                      (set_done true (set_statusChecked true (NewStream upstream false))))).
  { unfold Next, NewStream, readNonStreaming, io_ReadAll. simpl.
    rewrite Hstatus, Hread, Hdecode. reflexivity. }
  eexists. cbn [drain]. rewrite Hnext.
  rewrite drain_done by reflexivity.
  split; [reflexivity|]. split; [reflexivity|]. split; [reflexivity|].
  destruct (normalizeResponse_fields now r) as (Hobj & Hcreated & Hrest).
  rewrite Hobj, Hcreated, Hrest. repeat split.
  - destruct (String.eqb (resp_Object r) "") eqn:Hempty; [simpl; lia|].
    now apply eqb_empty_length.
  - destruct (resp_Created r =? 0) eqn:Hzero; [exact Hclock | now apply Z.eqb_neq].
Qed.

(** The body "{}" gives neither field: both are filled in. *)
Lemma Next_nonStreaming_witness :
  exists s',
    @drain sampleJSON sampleUnicode [1700000000 * Second; 1700000001 * Second]
      (@NewStream sampleSSE (mkHTTPResponse 200 (mkBody "{}" None)) false)
    = Some ([(None, Some io_EOF); (None, Some io_EOF)], s')
    /\ Response s' = Some (mkResponse "chat.completion" 1700000000 "")
    /\ Err s' = None
    /\ (0 < String.length "chat.completion")%nat
    /\ 1700000000 <> 0
    /\ "" = "".
Proof.
  apply (@Next_nonStreaming sampleJSON sampleUnicode sampleSSE
           (mkHTTPResponse 200 (mkBody "{}" None)) (mkResponse "" 0 "")
           (1700000000 * Second) [1700000001 * Second]);
    solve [reflexivity | vm_compute; discriminate].
Defined.

(** C5 as stated fails: status 200, non-streaming, and a body that is not
    JSON. The first call of [Next] returns the decoding error, not the
    end-of-stream signal, and [Response] has nothing to return. *)
Lemma Next_nonStreaming_malformed :
  exists s',
    @Next sampleJSON sampleUnicode (1700000000 * Second)
      (@NewStream sampleSSE (mkHTTPResponse 200 (mkBody "oops" None)) false)
    = Some ((None, Some syntaxError), s')
    /\ is_EOF syntaxError = false
    /\ Response s' = None
    /\ Err s' = Some syntaxError.
Proof. eexists. repeat split. Qed.

(** ** Credential broker *)

(** The write-locked section writes the cache only when it returns a token. *)
Lemma slowPath_error_keeps_cache `{JSON} (env : Env) (now : Time) (w w' : World) (e : error) :
  slowPath env now w = (Fail e, w') -> client w' = client w.
Proof.
  unfold slowPath.
  destruct (fastPath now (client w)); [discriminate|].
  destruct (getGitHubToken env) as [githubToken|e1]; [|now intros [= _ <-]].
  destruct (refreshCopilotToken _); [discriminate | now intros [= _ <-]].
Qed.

Lemma fastPath_invalid (now : Time) (c : Client) :
  tokenValid now c = false -> fastPath now c = None.
Proof. unfold fastPath. now intros ->. Qed.

(** The ways the refresh path fails that the specification names: the store
    gives no credentials, the stored token is empty, or the token endpoint
    answers with a status other than 200. *)
Definition refreshFails (env : Env) (w : World) : Prop :=
  (exists e, GetOAuthCredentials env = Fail e)
  \/ (exists creds, GetOAuthCredentials env = Ok creds /\ RefreshToken creds = "")
  \/ (exists githubToken upstream,
        getGitHubToken env = Ok githubToken
        /\ httpDo env (exchanges w) githubToken = Ok upstream
        /\ StatusCode upstream <> StatusOK).

(** C6. When the cache holds no valid token and the refresh path fails, for
    want of stored credentials or on a non-200 answer of the token endpoint,
    [getCopilotToken] returns an error and the cached token is what it was
    before the call. *)
Theorem getCopilotToken_failure `{JSON} (env : Env) (now1 now2 : Time) (w : World) :
  tokenValid now1 (client w) = false ->
  tokenValid now2 (client w) = false ->
  refreshFails env w ->
  exists e w',
    getCopilotToken env now1 now2 w = (Fail e, w')
    /\ copilotToken (client w') = copilotToken (client w).
Proof.
  intros Hinvalid1 Hinvalid2 Hfails.
  unfold getCopilotToken. rewrite (fastPath_invalid _ _ Hinvalid1).
  assert (Herr : exists e w', slowPath env now2 w = (Fail e, w')).
  { unfold slowPath. rewrite (fastPath_invalid _ _ Hinvalid2).
    destruct Hfails as [[e He] | [(creds & Hcreds & Hempty) | (gh & upstream & Hgh & Hdo & Hstatus)]].
    - unfold getGitHubToken. rewrite He. eauto.
    - unfold getGitHubToken. rewrite Hcreds, Hempty. simpl. eauto.
    - rewrite Hgh, Hdo. unfold refreshCopilotToken, io_ReadAll.
      destruct (body_err (resp_Body upstream)); [eauto|].
      apply Z.eqb_neq in Hstatus. rewrite Hstatus. simpl. eauto. }
  destruct Herr as (e & w' & Hslow). exists e, w'. split; [exact Hslow|].
  now rewrite (slowPath_error_keeps_cache _ _ _ _ _ Hslow).
Qed.

(** A stale token in the cache and a 500 from the token endpoint. *)
Lemma getCopilotToken_failure_witness :
  exists e w',
    @getCopilotToken sampleJSON
      (mkEnv (Ok (mkCreds "gho_1"))
             (fun _ _ => Ok (mkHTTPResponse 500 (mkBody "oops" None))))
      (4990 * Second) (4991 * Second)
      (mkWorld (mkClient (Some (mkCopilotToken "tid=0" (time_Unix 5000)))) 3)
    = (Fail e, w')
    /\ copilotToken (client w') = Some (mkCopilotToken "tid=0" (time_Unix 5000)).
Proof.
  apply (@getCopilotToken_failure sampleJSON
           (mkEnv (Ok (mkCreds "gho_1"))
                  (fun _ _ => Ok (mkHTTPResponse 500 (mkBody "oops" None))))
           (4990 * Second) (4991 * Second)
           (mkWorld (mkClient (Some (mkCopilotToken "tid=0" (time_Unix 5000)))) 3)).
  - reflexivity.
  - reflexivity.
  - right. right. exists "gho_1", (mkHTTPResponse 500 (mkBody "oops" None)).
    split; [reflexivity | split; [reflexivity | vm_compute; discriminate]].
Defined.

(** *** The race for the refresh *)

Section Race.
Context `{JSON}.
Variables (env : Env) (w0 : World) (githubToken : string) (issued : CopilotToken).

(** The stored credential is there and the first exchange gives the token [issued]. *)
Hypothesis Hcredentials : getGitHubToken env = Ok githubToken.
Hypothesis Hexchange :
  refreshCopilotToken (httpDo env (exchanges w0) githubToken) = Ok issued.

(** A clock reading of the race: the token cached at the start is not
    valid at it, the issued one is. *)
Definition duringRace (sched : nat * Time) : Prop :=
  tokenValid (snd sched) (client w0) = false
  /\ snd sched + 60 * Second < ExpiresAt issued.

Definition refreshed : World :=
  mkWorld (mkClient (Some issued)) (S (exchanges w0)).

(** Before the refresh nobody has returned; after it the cache holds the
    issued token, one exchange was made, and who returned, returned it. *)
Definition raceInv (sys : System) : Prop :=
  (world sys = w0
   /\ Forall (fun p => p = AtRLock \/ p = AtLock) (callers sys))
  \/ (world sys = refreshed
      /\ Forall (fun p => p = AtRLock \/ p = AtLock \/ p = Returned (Ok (Token issued)))
                (callers sys)).

Lemma fastPath_refreshed (now : Time) :
  now + 60 * Second < ExpiresAt issued ->
  fastPath now (client refreshed) = Some (Token issued).
Proof.
  intros Hvalid. unfold fastPath, tokenValid. simpl.
  apply Z.ltb_lt in Hvalid. now rewrite Hvalid.
Qed.

Lemma step_raceInv (sys : System) (sched : nat * Time) :
  duringRace sched -> raceInv sys -> raceInv (step env sys sched).
Proof.
  destruct sched as [i now]. intros [Hstale Hfresh] Hinv. simpl in Hstale, Hfresh.
  unfold step.
  destruct (callers sys !! i) as [[| |r]|] eqn:Hi; try exact Hinv.
  - destruct Hinv as [[Hw Hall] | [Hw Hall]]; rewrite Hw.
    + rewrite (fastPath_invalid _ _ Hstale). left. simpl. split; [reflexivity|].
      apply Forall_insert; auto.
    + rewrite (fastPath_refreshed _ Hfresh). right. simpl. split; [reflexivity|].
      apply Forall_insert; auto.
  - destruct Hinv as [[Hw Hall] | [Hw Hall]]; rewrite Hw.
    + unfold slowPath. rewrite (fastPath_invalid _ _ Hstale), Hcredentials, Hexchange.
      right. simpl. split; [reflexivity|].
      apply Forall_insert; [|auto].
      eapply Forall_impl; [exact Hall|]. simpl. tauto.
    + unfold slowPath. rewrite (fastPath_refreshed _ Hfresh).
      right. simpl. split; [reflexivity|].
      apply Forall_insert; auto.
Qed.

Lemma run_raceInv (schedule : list (nat * Time)) (sys : System) :
  Forall duringRace schedule -> raceInv sys -> raceInv (run env schedule sys).
Proof.
  unfold run. intros Hschedule. revert sys.
  induction Hschedule as [|sched schedule Hsched _ IH]; intros sys Hinv; simpl.
  - exact Hinv.
  - apply IH. now apply step_raceInv.
Qed.

Lemma step_callers_length (sys : System) (sched : nat * Time) :
  length (callers (step env sys sched)) = length (callers sys).
Proof.
  destruct sched as [i now]. unfold step.
  destruct (callers sys !! i) as [[| |r]|]; try reflexivity.
  - destruct (fastPath now (client (world sys))); simpl; apply length_insert.
  - destruct (slowPath env now (world sys)); simpl; apply length_insert.
Qed.

Lemma run_callers_length (schedule : list (nat * Time)) (sys : System) :
  length (callers (run env schedule sys)) = length (callers sys).
Proof.
  unfold run. revert sys. induction schedule as [|sched schedule IH]; intros sys; simpl.
  - reflexivity.
  - rewrite IH. apply step_callers_length.
Qed.

(** C1, as the code has it. Callers race while the cache holds no valid
    token; the stored credential is read and the exchange answers with a
    token whose expiry is more than 60 seconds beyond every clock reading
    of the race. Then, whatever the interleaving, once all callers have
    returned exactly one exchange was made, the cache holds its token and
    every caller returned that token. *)
Theorem race_single_exchange (n : nat) (schedule : list (nat * Time)) :
  (0 < n)%nat ->
  Forall duringRace schedule ->
  allReturned (run env schedule (race n w0)) = true ->
  exchanges (world (run env schedule (race n w0))) = S (exchanges w0)
  /\ copilotToken (client (world (run env schedule (race n w0)))) = Some issued
  /\ Forall (fun p => p = Returned (Ok (Token issued)))
            (callers (run env schedule (race n w0))).
Proof.
  intros Hn Hschedule Hall.
  assert (Hinv : raceInv (run env schedule (race n w0))).
  { apply run_raceInv; [exact Hschedule|]. left. split; [reflexivity|].
    simpl. apply Forall_replicate. now left. }
  assert (Hlen : length (callers (run env schedule (race n w0))) = n).
  { rewrite run_callers_length. simpl. apply length_replicate. }
  unfold allReturned in Hall. rewrite forallb_forall in Hall.
  destruct Hinv as [[_ Hcallers] | [Hw Hcallers]].
  - exfalso. destruct (callers (run env schedule (race n w0))) as [|p ps];
      [simpl in Hlen; lia|].
    specialize (Hall p (or_introl eq_refl)).
    inversion Hcallers as [|? ? [-> | ->] _]; discriminate.
  - rewrite Hw. split; [reflexivity | split; [reflexivity|]].
    rewrite Forall_forall in Hcallers |- *. intros p Hp.
    specialize (Hall p (proj1 (list_elem_of_In _ _) Hp)).
    destruct (Hcallers p Hp) as [-> | [-> | ->]]; try discriminate. reflexivity.
Qed.
End Race.

(** Three callers and a token endpoint that issues a token good until second
    5000: the second caller refreshes, the third finds the token on the fast
    path, the first on its re-check under the write lock. *)
Lemma race_single_exchange_witness :
  exchanges (world (@run sampleJSON
     (mkEnv (Ok (mkCreds "gho_1")) (fun _ _ => Ok (mkHTTPResponse 200 (mkBody tokenBody None))))
     [(0%nat, 1000 * Second); (1%nat, 1000 * Second); (1%nat, 1001 * Second);
      (2%nat, 1002 * Second); (0%nat, 1003 * Second)]
     (race 3 (mkWorld (mkClient None) 0)))) = 1%nat
  /\ copilotToken (client (world (@run sampleJSON
     (mkEnv (Ok (mkCreds "gho_1")) (fun _ _ => Ok (mkHTTPResponse 200 (mkBody tokenBody None))))
     [(0%nat, 1000 * Second); (1%nat, 1000 * Second); (1%nat, 1001 * Second);
      (2%nat, 1002 * Second); (0%nat, 1003 * Second)]
     (race 3 (mkWorld (mkClient None) 0)))))
     = Some (mkCopilotToken "tid=1" (time_Unix 5000))
  /\ Forall (fun p => p = Returned (Ok "tid=1"))
       (callers (@run sampleJSON
     (mkEnv (Ok (mkCreds "gho_1")) (fun _ _ => Ok (mkHTTPResponse 200 (mkBody tokenBody None))))
     [(0%nat, 1000 * Second); (1%nat, 1000 * Second); (1%nat, 1001 * Second);
      (2%nat, 1002 * Second); (0%nat, 1003 * Second)]
     (race 3 (mkWorld (mkClient None) 0)))).
Proof.
  apply (@race_single_exchange sampleJSON
           (mkEnv (Ok (mkCreds "gho_1"))
                  (fun _ _ => Ok (mkHTTPResponse 200 (mkBody tokenBody None))))
           (mkWorld (mkClient None) 0) "gho_1"
           (mkCopilotToken "tid=1" (time_Unix 5000))
           eq_refl eq_refl 3%nat).
  - lia.
  - repeat constructor.
  - reflexivity.
Defined.

(** C1 as stated fails. Two callers race on an empty cache. When the token
    endpoint answers 500, each of them sends its own exchange request and
    returns an error; when it issues a token that expires within the margin
    of 60 seconds, each of them sends its own exchange request again. In
    both runs two exchanges are made, not one. *)
Lemma race_repeated_exchange :
  @run sampleJSON
    (mkEnv (Ok (mkCreds "gho_1")) (fun _ _ => Ok (mkHTTPResponse 500 (mkBody "oops" None))))
    [(0%nat, 1000 * Second); (1%nat, 1000 * Second);
     (0%nat, 1001 * Second); (1%nat, 1002 * Second)]
    (race 2 (mkWorld (mkClient None) 0))
  = mkSystem (mkWorld (mkClient None) 2)
      [Returned (Fail (TokenStatusError 500 "oops"));
       Returned (Fail (TokenStatusError 500 "oops"))]
  /\ @run sampleJSON
    (mkEnv (Ok (mkCreds "gho_1")) (fun _ _ => Ok (mkHTTPResponse 200 (mkBody tokenBody None))))
    [(0%nat, 4990 * Second); (1%nat, 4990 * Second);
     (0%nat, 4991 * Second); (1%nat, 4992 * Second)]
    (race 2 (mkWorld (mkClient None) 0))
  = mkSystem (mkWorld (mkClient (Some (mkCopilotToken "tid=1" (time_Unix 5000)))) 2)
      [Returned (Ok "tid=1"); Returned (Ok "tid=1")].
Proof. split; vm_compute; reflexivity. Qed.

(** ** Role remapping *)

(** What [transformMessages] makes of one message. *)
Definition remapMessage (msg : Message) : Message :=
  mkMessage (remapRole (Role msg)) (Content msg) (msg_rest msg).

(** The result array after the indices below [k] have been visited. *)
Definition partial (original : list Message) (k : nat) : list Message :=
  (map remapMessage (take k original) ++ replicate (length original - k) zeroMessage)%list.

Lemma partial_length (original : list Message) (k : nat) :
  (k <= length original)%nat -> length (partial original k) = length original.
Proof.
  intros Hk. unfold partial.
  rewrite length_app, length_map, length_take, length_replicate. lia.
Qed.

Lemma partial_step (original : list Message) (k : nat) (msg : Message) :
  original !! k = Some msg ->
  <[k := remapMessage msg]> (partial original k) = partial original (S k).
Proof.
  intros Hk. assert (Hlt : (k < length original)%nat) by (eapply lookup_lt_Some; eauto).
  unfold partial. rewrite (take_S_r _ _ _ Hk), map_app. simpl.
  replace (length original - k)%nat with (S (length original - S k)) by lia.
  simpl. rewrite <- app_assoc. simpl.
  replace k with (length (map remapMessage (take k original)) + 0)%nat at 1
    by (rewrite length_map, length_take; lia).
  rewrite insert_app_r. reflexivity.
Qed.

Lemma transformLoop_spec (h : gmap loc (list Message)) (messages : slice)
    (arr original : list Message) (p : loc) :
  h !! ptr messages = Some arr ->
  take (len messages) arr = original ->
  (len messages <= length arr)%nat ->
  p <> ptr messages ->
  forall m k,
    (k + m = len messages)%nat ->
    transformLoop (<[p := partial original k]> h) messages (mkSlice p (len messages)) (seq k m)
    = Some (<[p := map remapMessage original]> h).
Proof.
  intros Harr Horiginal Hlen Hp.
  assert (Hn : length original = len messages).
  { rewrite <- Horiginal, length_take. lia. }
  induction m as [|m IH]; intros k Hk; simpl.
  - unfold partial. replace k with (length original) by lia.
    rewrite firstn_all, Nat.sub_diag. simpl. now rewrite app_nil_r.
  - assert (Hlt : (k < len messages)%nat) by lia.
    destruct (original !! k) as [msg|] eqn:Hmsg;
      [| apply lookup_ge_None in Hmsg; lia].
    assert (Hread : index (<[p := partial original k]> h) messages k = Some msg).
    { unfold index. apply Nat.ltb_lt in Hlt. rewrite Hlt.
      rewrite lookup_insert_ne by exact Hp. rewrite Harr. simpl.
      rewrite <- Horiginal in Hmsg. rewrite lookup_take_lt in Hmsg; [exact Hmsg|].
      now apply Nat.ltb_lt. }
    rewrite Hread. simpl.
    assert (Hassign : forall l v, length l = len messages ->
              assign (<[p := l]> h) (mkSlice p (len messages)) k v
              = Some (<[p := <[k := v]> l]> h)).
    { intros l v Hl. unfold assign. simpl.
      apply Nat.ltb_lt in Hlt. rewrite Hlt. rewrite lookup_insert_eq.
      rewrite Hl, Hlt. now rewrite insert_insert_eq. }
    rewrite Hassign by (rewrite partial_length; lia). simpl.
    assert (Hresult : (if String.eqb (Role msg) "system"
                       then r ← index (<[p := <[k := msg]> (partial original k)]> h)
                                      (mkSlice p (len messages)) k;
                            assign (<[p := <[k := msg]> (partial original k)]> h)
                                   (mkSlice p (len messages)) k
                                   (mkMessage "assistant" (Content r) (msg_rest r))
                       else Some (<[p := <[k := msg]> (partial original k)]> h))
                      = Some (<[p := partial original (S k)]> h)).
    { rewrite <- (partial_step _ _ _ Hmsg).
      unfold remapMessage, remapRole.
      destruct (String.eqb (Role msg) "system") eqn:Hrole.
      - unfold index. simpl. apply Nat.ltb_lt in Hlt. rewrite Hlt.
        rewrite lookup_insert_eq. simpl.
        rewrite list_lookup_insert_eq by (rewrite partial_length; lia). simpl.
        rewrite Hassign by (rewrite length_insert, partial_length; lia).
        now rewrite list_insert_insert_eq.
      - destruct msg; reflexivity. }
    rewrite Hresult. simpl. apply IH. lia.
Qed.

(** C7. [transformMessages] builds, in an array of its own, the sequence of
    the caller's messages in the same order and of the same length, where a
    message of role system has role assistant and every other role and every
    other field is as it was; the caller's array, and every array that was
    in the heap, is left as it was. *)
Theorem transformMessages_spec (h : gmap loc (list Message)) (messages : slice)
    (original : list Message) :
  contents h messages = Some original ->
  exists h' result transformed,
    transformMessages h messages = Some (h', result)
    /\ contents h' result = Some transformed
    /\ transformed = map remapMessage original
    /\ length transformed = length original
    /\ (forall i msg, original !! i = Some msg ->
          exists msg', transformed !! i = Some msg'
            /\ Role msg' = (if String.eqb (Role msg) "system" then "assistant" else Role msg)
            /\ Content msg' = Content msg
            /\ msg_rest msg' = msg_rest msg)
    /\ contents h' messages = Some original
    /\ (forall p arr, h !! p = Some arr -> h' !! p = Some arr)
    /\ h !! ptr result = None.
Proof.
  unfold contents. intros Hcontents.
  destruct (h !! ptr messages) as [arr|] eqn:Harr; [|discriminate]. simpl in Hcontents.
  destruct (len messages <=? length arr)%nat eqn:Hlen; [|discriminate].
  apply Nat.leb_le in Hlen. injection Hcontents as Horiginal.
  assert (Hn : length original = len messages).
  { rewrite <- Horiginal, length_take. lia. }
  set (p := fresh (dom h)).
  assert (Hfresh : h !! p = None).
  { apply not_elem_of_dom. apply is_fresh. }
  assert (Hp : p <> ptr messages) by congruence.
  exists (<[p := map remapMessage original]> h), (mkSlice p (len messages)),
         (map remapMessage original).
  split; [|split; [|split; [|split; [|split; [|split; [|split]]]]]].
  - unfold transformMessages, make. fold p.
    pose proof (transformLoop_spec h messages arr original p Harr Horiginal Hlen Hp
                  (len messages) 0%nat eq_refl) as Hloop.
    unfold partial in Hloop. rewrite take_0, Nat.sub_0_r, Hn in Hloop. simpl in Hloop.
    rewrite Hloop. reflexivity.
  - simpl. rewrite lookup_insert_eq. simpl.
    rewrite length_map, Hn, Nat.leb_refl.
    rewrite <- Hn, <- (length_map remapMessage original), firstn_all. reflexivity.
  - reflexivity.
  - apply length_map.
  - intros i msg Hi. exists (remapMessage msg). split.
    + rewrite list_lookup_fmap, Hi. reflexivity.
    + repeat split.
  - rewrite lookup_insert_ne by exact Hp. rewrite Harr. simpl.
    apply Nat.leb_le in Hlen. rewrite Hlen, Horiginal. reflexivity.
  - intros q arr' Hq. rewrite lookup_insert_ne by congruence. exact Hq.
  - exact Hfresh.
Qed.

(** A system message followed by a user message, in the only array of the
    heap. *)
Lemma transformMessages_spec_witness :
  exists h' result transformed,
    transformMessages {[ 7%nat := [mkMessage "system" [] "s"; mkMessage "user" [] "u"] ]}
                      (mkSlice 7%nat 2%nat) = Some (h', result)
    /\ contents h' result = Some transformed
    /\ transformed = [mkMessage "assistant" [] "s"; mkMessage "user" [] "u"]
    /\ length transformed = 2%nat
    /\ (forall i msg,
          [mkMessage "system" [] "s"; mkMessage "user" [] "u"] !! i = Some msg ->
          exists msg', transformed !! i = Some msg'
            /\ Role msg' = (if String.eqb (Role msg) "system" then "assistant" else Role msg)
            /\ Content msg' = Content msg
            /\ msg_rest msg' = msg_rest msg)
    /\ contents h' (mkSlice 7%nat 2%nat)
       = Some [mkMessage "system" [] "s"; mkMessage "user" [] "u"]
    /\ (forall p arr,
          ({[ 7%nat := [mkMessage "system" [] "s"; mkMessage "user" [] "u"] ]}
             : gmap loc (list Message)) !! p = Some arr -> h' !! p = Some arr)
    /\ ({[ 7%nat := [mkMessage "system" [] "s"; mkMessage "user" [] "u"] ]}
          : gmap loc (list Message)) !! ptr result = None.
Proof.
  apply (transformMessages_spec
           {[ 7%nat := [mkMessage "system" [] "s"; mkMessage "user" [] "u"] ]}
           (mkSlice 7%nat 2%nat)
           [mkMessage "system" [] "s"; mkMessage "user" [] "u"]).
  reflexivity.
Defined.

(** * Further properties of the stream adapter *)

(** What [Next] makes of one frame: the chunk it decodes to, if any. *)
Definition decodeFrame `{JSON} (event : Event) : option ChatCompletionChunk :=
  if (String.length (Data event) =? 0)%nat then None
  else match unmarshalChunk (Data event) with
       | Ok chunk => Some chunk
       | Fail _ => None
       end.

Lemma decodeFrame_None `{JSON} (event : Event) :
  decodeFrame event = None -> skippable event.
Proof.
  unfold decodeFrame, skippable.
  destruct (String.length (Data event) =? 0)%nat eqn:Hlen.
  - intros _. left. apply Nat.eqb_eq in Hlen. now destruct (Data event).
  - destruct (unmarshalChunk (Data event)) as [chunk|e]; [discriminate | eauto].
Qed.

Lemma decodeFrame_Some `{JSON} (event : Event) (chunk : ChatCompletionChunk) :
  decodeFrame event = Some chunk ->
  (0 < String.length (Data event))%nat /\ unmarshalChunk (Data event) = Ok chunk.
Proof.
  unfold decodeFrame.
  destruct (String.length (Data event) =? 0)%nat eqn:Hlen; [discriminate|].
  apply Nat.eqb_neq in Hlen.
  destruct (unmarshalChunk (Data event)) as [c|e]; [|discriminate].
  intros [= ->]. split; [lia | reflexivity].
Qed.

(** The frames of a reader up to the first one that decodes. *)
Lemma first_decodable `{JSON} (events : list Event) :
  (Forall skippable events /\ omap decodeFrame events = [])
  \/ (exists skipped event chunk rest,
        events = (skipped ++ event :: rest)%list
        /\ Forall skippable skipped
        /\ decodeFrame event = Some chunk
        /\ omap decodeFrame events = chunk :: omap decodeFrame rest).
Proof.
  induction events as [|event events IH].
  - left. split; [constructor | reflexivity].
  - destruct (decodeFrame event) as [chunk|] eqn:Hevent.
    + right. exists [], event, chunk, events. simpl. rewrite Hevent.
      repeat split. constructor.
    + destruct IH as [[Hall Hnone] | (skipped & ev & chunk & rest & -> & Hall & Hev & Hchunks)].
      * left. simpl. rewrite Hevent. split; [|exact Hnone].
        constructor; [now apply decodeFrame_None | exact Hall].
      * right. exists (event :: skipped), ev, chunk, rest. simpl. rewrite Hevent.
        repeat split; auto. constructor; [now apply decodeFrame_None | exact Hall].
Qed.

(** A reading stream with its reader and no error kept so far. *)
Definition readingFrom (s : Stream) (rd : Reader) : Prop :=
  reading s /\ reader s = Some rd /\ err s = None.

Lemma drain_reading `{JSON} `{Unicode} (clock : list Time) :
  forall (s : Stream) (rd : Reader) (now : Time) (later : list Time),
    readingFrom s rd ->
    length clock = length (omap decodeFrame (pending rd)) ->
    exists s',
      drain (clock ++ now :: later) s
      = Some ((zip_with (fun t chunk => (Some (normalizeChunk t chunk), None))
                        clock (omap decodeFrame (pending rd))
               ++ (None, Some (terminal rd))
                  :: replicate (length later) (None, Some io_EOF))%list, s')
      /\ Err s' = (if is_EOF (terminal rd) then None else Some (terminal rd))
      /\ Response s' = response s
      /\ done s' = true.
Proof.
  induction clock as [|t clock IH]; intros s rd now later (Hreading & Hrd & Herr) Hlen.
  - destruct (first_decodable (pending rd))
      as [[Hall Hnone] | (skipped & ev & chunk & rest & _ & _ & _ & Hchunks)];
      [| rewrite Hchunks in Hlen; discriminate].
    rewrite Hnone. eexists. cbn [app drain zip_with].
    rewrite (Next_exhausts now s rd Hreading Hrd Hall).
    rewrite drain_done by (destruct (is_EOF (terminal rd)); reflexivity).
    split; [reflexivity|].
    destruct (is_EOF (terminal rd)); simpl; auto.
  - destruct (first_decodable (pending rd))
      as [[Hall Hnone] | (skipped & ev & chunk & rest & Hpending & Hall & Hev & Hchunks)];
      [rewrite Hnone in Hlen; discriminate|].
    apply decodeFrame_Some in Hev as [Hdata Hchunk].
    rewrite Hchunks in Hlen |- *. simpl in Hlen.
    destruct (IH (set_reader (Some (mkReader rest (terminal rd))) (set_statusChecked true s))
                 (mkReader rest (terminal rd)) now later) as (s' & Hdrain & Herr' & Hresp & Hdone).
    + destruct Hreading as [Hd _]. repeat split; auto.
    + simpl. lia.
    + exists s'. cbn [app drain zip_with].
      rewrite (Next_yields t s rd skipped rest ev chunk Hreading Hrd Hpending Hall Hdata Hchunk).
      simpl in Hdrain. rewrite Hdrain. auto.
Qed.

(** X1. A streaming response with status 200 run to its end: the calls of
    [Next] give the chunks of the frames that decode, in the order of the
    frames and each one once, then the error that ends the reader, once, and
    from then on the end-of-stream signal; [Err] keeps that error unless it
    is [io.EOF]. *)
Theorem drain_streaming_run `{JSON} `{Unicode} `{SSE} (upstream : http_Response)
    (events : list Event) (e : error) (clock later : list Time) (now : Time) :
  StatusCode upstream = StatusOK ->
  sse_NewReader (resp_Body upstream) = mkReader events e ->
  length clock = length (omap decodeFrame events) ->
  exists s',
    drain (clock ++ now :: later) (NewStream upstream true)
    = Some ((zip_with (fun t chunk => (Some (normalizeChunk t chunk), None))
                      clock (omap decodeFrame events)
             ++ (None, Some e) :: replicate (length later) (None, Some io_EOF))%list, s')
    /\ Err s' = (if is_EOF e then None else Some e)
    /\ Response s' = None
    /\ done s' = true.
Proof.
  intros Hstatus Hreader Hlen.
  destruct (drain_reading clock (NewStream upstream true) (mkReader events e) now later)
    as (s' & Hdrain & Herr & Hresp & Hdone).
  - repeat split.
    + right. split; [exact Hstatus | reflexivity].
    + unfold NewStream. simpl. now rewrite Hreader.
  - exact Hlen.
  - exists s'. auto.
Qed.

(** Four frames, two of which decode, and a connection reset at the end. *)
Lemma drain_streaming_run_witness :
  exists s',
    @drain sampleJSON sampleUnicode [10 * Second; 20 * Second; 30 * Second; 40 * Second]
      (@NewStream sampleSSE
         (mkHTTPResponse 200
            (mkBody ("{}" ++ String "010" ("oops" ++ String "010" (String "010" "{}")))
                    (Some (External "connection reset")))) true)
    = Some ([(Some (mkChunk "chat.completion.chunk" 10 ""), None);
             (Some (mkChunk "chat.completion.chunk" 20 ""), None);
             (None, Some (External "connection reset"));
             (None, Some io_EOF)], s')
    /\ Err s' = Some (External "connection reset")
    /\ Response s' = None
    /\ done s' = true.
Proof.
  apply (@drain_streaming_run sampleJSON sampleUnicode sampleSSE
           (mkHTTPResponse 200
              (mkBody ("{}" ++ String "010" ("oops" ++ String "010" (String "010" "{}")))
                      (Some (External "connection reset"))))
           [mkEvent "{}"; mkEvent "oops"; mkEvent ""; mkEvent "{}"]
           (External "connection reset")
           [10 * Second; 20 * Second] [40 * Second] (30 * Second));
    reflexivity.
Defined.

(** What one run of the loop can give. *)
Lemma readLoop_result `{JSON} (fuel : nat) (now : Time) :
  forall (s s' : Stream) (r : NextResult),
    readLoop fuel now s = Some (r, s') ->
    (exists chunk, r = (Some chunk, None)
       /\ done s' = done s /\ err s' = err s /\ response s' = response s)
    \/ (exists e, r = (None, Some e)
       /\ done s' = true /\ response s' = response s
       /\ (is_EOF e = false -> err s' = Some e)
       /\ (is_EOF e = true -> err s' = err s)).
Proof.
  induction fuel as [|fuel IH]; intros s s' r; simpl; [discriminate|].
  destruct (reader s) as [rd|]; [|discriminate].
  unfold ReadEvent. destruct (pending rd) as [|event rest].
  - intros [= <- <-]. right. exists (terminal rd).
    destruct (is_EOF (terminal rd)) eqn:Heof; simpl; repeat split; auto; discriminate.
  - assert (Hrec : readLoop fuel now (set_reader (Some (mkReader rest (terminal rd))) s)
                   = Some (r, s') ->
                   (exists chunk, r = (Some chunk, None)
                      /\ done s' = done s /\ err s' = err s /\ response s' = response s)
                   \/ (exists e, r = (None, Some e)
                      /\ done s' = true /\ response s' = response s
                      /\ (is_EOF e = false -> err s' = Some e)
                      /\ (is_EOF e = true -> err s' = err s))).
    { intros Hloop. apply IH in Hloop. exact Hloop. }
    destruct (String.length (Data event) =? 0)%nat; [exact Hrec|].
    destruct (unmarshalChunk (Data event)) as [chunk|e]; [|exact Hrec].
    intros [= <- <-]. left. exists (normalizeChunk now chunk). repeat split.
Qed.

(** X2. Whatever the state of the stream, a call of [Next] that returns gives
    either a chunk and no error, leaving the stream open, or no chunk and an
    error; after an error the stream is done, [Err] keeps the error when it
    is not [io.EOF], and every later call gives the end-of-stream signal. *)
Theorem Next_result `{JSON} `{Unicode} (now : Time) (s s' : Stream) (r : NextResult) :
  Next now s = Some (r, s') ->
  (exists chunk, r = (Some chunk, None)
     /\ done s' = false /\ Err s' = Err s /\ Response s' = Response s)
  \/ (exists e, r = (None, Some e)
     /\ done s' = true
     /\ (is_EOF e = false -> Err s' = Some e)
     /\ forall clock,
          drain clock s' = Some (replicate (length clock) (None, Some io_EOF), s')).
Proof.
  unfold Next, Err, Response.
  destruct (done s) eqn:Hdone.
  { intros [= <- <-]. right. exists io_EOF. repeat split; auto; try discriminate.
    intros clock. now apply drain_done. }
  assert (Hloop : forall s0, done s0 = false -> err s0 = err s -> response s0 = response s ->
            readLoop (loopFuel s0) now s0 = Some (r, s') ->
            (exists chunk, r = (Some chunk, None)
               /\ done s' = false /\ err s' = err s /\ response s' = response s)
            \/ (exists e, r = (None, Some e)
               /\ done s' = true
               /\ (is_EOF e = false -> err s' = Some e)
               /\ forall clock,
                    drain clock s' = Some (replicate (length clock) (None, Some io_EOF), s'))).
  { intros s0 Hd He Hr Hrun. apply readLoop_result in Hrun
      as [(chunk & -> & Hd' & He' & Hr') | (e & -> & Hd' & Hr' & He' & _)].
    - left. exists chunk. repeat split; congruence.
    - right. exists e. repeat split; auto. intros clock. now apply drain_done. }
  destruct (statusChecked s) eqn:Hchecked; simpl.
  - apply Hloop; auto.
  - destruct (StatusCode (resp s) =? StatusOK) eqn:Hstatus; simpl.
    + destruct (streaming s) eqn:Hstreaming; simpl.
      * apply Hloop; auto.
      * destruct (readNonStreaming now (set_done true (set_statusChecked true s)))
          as [e s1] eqn:Hread.
        intros [= <- <-]. right. exists e.
        unfold readNonStreaming, io_ReadAll in Hread. simpl in Hread.
        assert (Hs1 : done s1 = true /\ (is_EOF e = false -> err s1 = Some e)).
        { destruct (body_err (resp_Body (resp s))) as [e1|].
          - injection Hread as <- <-. auto.
          - destruct (unmarshalResponse (body_data (resp_Body (resp s)))) as [r1|e1];
              injection Hread as <- <-; simpl;
              (split; [reflexivity | intros Hx; first [reflexivity | discriminate Hx]]). }
        destruct Hs1 as [Hd1 He1]. repeat split; auto.
        intros clock. now apply drain_done.
    + intros [= <- <-]. right. eexists. repeat split; auto.
      intros clock. now apply drain_done.
Qed.

(** A stream in the middle of its frames, and the same stream one frame on. *)
Definition midStream (frames : list Event) : Stream :=
  mkStream (mkHTTPResponse 200 (mkBody "" None))
           (Some (mkReader frames io_EOF)) true false true None None.

(** On its last frame, which decodes, the next call gives a chunk. *)
Lemma Next_result_witness :
  (exists chunk,
     ((Some (mkChunk "chat.completion.chunk" 10 ""), None) : NextResult) = (Some chunk, None)
     /\ done (midStream []) = false
     /\ Err (midStream []) = Err (midStream [mkEvent "{}"])
     /\ Response (midStream []) = Response (midStream [mkEvent "{}"]))
  \/ (exists e,
     ((Some (mkChunk "chat.completion.chunk" 10 ""), None) : NextResult) = (None, Some e)
     /\ done (midStream []) = true
     /\ (is_EOF e = false -> Err (midStream []) = Some e)
     /\ forall clock,
          @drain sampleJSON sampleUnicode clock (midStream [])
          = Some (replicate (length clock) (None, Some io_EOF), midStream [])).
Proof.
  apply (@Next_result sampleJSON sampleUnicode (10 * Second) (midStream [mkEvent "{}"])).
  reflexivity.
Defined.

(** The loop returns when it has the fuel for the frames that are left, and
    leaves the reader in place. *)
Lemma readLoop_returns `{JSON} (fuel : nat) (now : Time) :
  forall (s : Stream) (rd : Reader),
    reader s = Some rd ->
    (length (pending rd) < fuel)%nat ->
    exists r s', readLoop fuel now s = Some (r, s') /\ is_Some (reader s').
Proof.
  induction fuel as [|fuel IH]; intros s rd Hrd Hfuel; [lia|].
  simpl. rewrite Hrd. unfold ReadEvent.
  destruct (pending rd) as [|event rest] eqn:Hpending.
  - eexists _, _. split; [reflexivity|].
    destruct (is_EOF (terminal rd)); simpl; eauto.
  - assert (Hrec : exists r s',
              readLoop fuel now (set_reader (Some (mkReader rest (terminal rd))) s)
              = Some (r, s') /\ is_Some (reader s')).
    { apply (IH _ (mkReader rest (terminal rd))); [reflexivity | simpl in *; lia]. }
    destruct (String.length (Data event) =? 0)%nat; [exact Hrec|].
    destruct (unmarshalChunk (Data event)) as [chunk|e]; [|exact Hrec].
    eexists _, _. split; [reflexivity | simpl; eauto].
Qed.

(** The states a stream made by [NewStream] goes through: it is done, or it
    has its reader, or it is a non-streaming one not yet looked at. *)
Definition wellFormed (s : Stream) : Prop :=
  done s = true
  \/ is_Some (reader s)
  \/ (statusChecked s = false /\ streaming s = false).

Lemma Next_wellFormed `{JSON} `{Unicode} (now : Time) (s : Stream) :
  wellFormed s -> exists r s', Next now s = Some (r, s') /\ wellFormed s'.
Proof.
  intros Hwf. unfold Next.
  destruct (done s) eqn:Hdone.
  { eexists _, _. split; [reflexivity | now left]. }
  assert (Hloop : forall s0, is_Some (reader s0) ->
            exists r s', readLoop (loopFuel s0) now s0 = Some (r, s') /\ wellFormed s').
  { intros s0 [rd Hrd].
    destruct (readLoop_returns (loopFuel s0) now s0 rd Hrd) as (r & s' & Hrun & Hreader).
    - unfold loopFuel. rewrite Hrd. lia.
    - exists r, s'. split; [exact Hrun | right; now left]. }
  destruct (statusChecked s) eqn:Hchecked; simpl.
  - apply Hloop. destruct Hwf as [Hd | [Hr | [Hc _]]]; [congruence | exact Hr | congruence].
  - destruct (StatusCode (resp s) =? StatusOK); simpl.
    + destruct (streaming s) eqn:Hstreaming; simpl.
      * apply Hloop. destruct Hwf as [Hd | [Hr | [_ Hs]]]; [congruence | exact Hr | congruence].
      * destruct (readNonStreaming now (set_done true (set_statusChecked true s)))
          as [e s1] eqn:Hread.
        eexists _, _. split; [reflexivity|]. left.
        unfold readNonStreaming, io_ReadAll in Hread. simpl in Hread.
        destruct (body_err (resp_Body (resp s))) as [e1|].
        -- now injection Hread as <- <-.
        -- destruct (unmarshalResponse (body_data (resp_Body (resp s))));
             now injection Hread as <- <-.
    + eexists _, _. split; [reflexivity | now left].
Qed.

(** X3. On a stream made by [NewStream], whatever the response and the mode,
    every call of [Next] returns: the reader is there whenever the loop
    reads from it, and the loop ends within the frames of the body. *)
Theorem drain_NewStream_returns `{JSON} `{Unicode} `{SSE}
    (upstream : http_Response) (streaming : bool) (clock : list Time) :
  exists results s',
    drain clock (NewStream upstream streaming) = Some (results, s')
    /\ length results = length clock.
Proof.
  assert (Hwf : wellFormed (NewStream upstream streaming)).
  { unfold NewStream. destruct streaming; [right; left; simpl; eauto | right; right; auto]. }
  revert Hwf. generalize (NewStream upstream streaming).
  induction clock as [|now clock IH]; intros s Hwf; simpl.
  - eexists _, _. split; reflexivity.
  - destruct (Next_wellFormed now s Hwf) as (r & s1 & Hnext & Hwf1).
    rewrite Hnext. destruct (IH s1 Hwf1) as (rs & s' & Hdrain & Hlen).
    rewrite Hdrain. eexists _, _. split; [reflexivity | simpl; now rewrite Hlen].
Qed.

(** X4. On a non-streaming response with status 200 whose body cannot be
    read to its end, or does not decode as a response, the first call of
    [Next] returns that error, [Err] keeps it, [Response] has nothing, and
    the later calls give the end-of-stream signal. *)
Theorem Next_nonStreaming_failure `{JSON} `{Unicode} `{SSE}
    (upstream : http_Response) (e : error) (now : Time) (clock : list Time) :
  StatusCode upstream = StatusOK ->
  body_err (resp_Body upstream) = Some e
  \/ (body_err (resp_Body upstream) = None
      /\ unmarshalResponse (body_data (resp_Body upstream)) = Fail e) ->
  exists s',
    drain (now :: clock) (NewStream upstream false)
    = Some ((None, Some e) :: replicate (length clock) (None, Some io_EOF), s')
    /\ Err s' = Some e
    /\ Response s' = None.
Proof.
  intros Hstatus Hfailure.
  assert (Hnext : Next now (NewStream upstream false)
            = Some ((None, Some e),
                    set_err (Some e)
                      (set_done true (set_statusChecked true (NewStream upstream false))))).
  { unfold Next, NewStream, readNonStreaming, io_ReadAll. simpl. rewrite Hstatus.
    destruct Hfailure as [Hread | [Hread Hdecode]]; rewrite Hread; [reflexivity|].
    rewrite Hdecode. reflexivity. }
  eexists. cbn [drain]. rewrite Hnext. rewrite drain_done by reflexivity.
  repeat split.
Qed.

(** The body is cut short by a reset of the connection. *)
Lemma Next_nonStreaming_failure_witness :
  exists s',
    @drain sampleJSON sampleUnicode [10 * Second; 20 * Second]
      (@NewStream sampleSSE
         (mkHTTPResponse 200 (mkBody "{" (Some (External "connection reset")))) false)
    = Some ([(None, Some (External "connection reset")); (None, Some io_EOF)], s')
    /\ Err s' = Some (External "connection reset")
    /\ Response s' = None.
Proof.
  apply (@Next_nonStreaming_failure sampleJSON sampleUnicode sampleSSE
           (mkHTTPResponse 200 (mkBody "{" (Some (External "connection reset"))))
           (External "connection reset") (10 * Second) [20 * Second]).
  - reflexivity.
  - left. reflexivity.
Defined.

(** X5. Normalizing is idempotent once the clock reads a second other than
    0, whatever the clock reads the second time, and it leaves alone a chunk
    or response that has both its object kind and its creation time. *)
Theorem normalize_idempotent (now later : Time) :
  Unix now <> 0 ->
  (forall chunk,
     normalizeChunk later (normalizeChunk now chunk) = normalizeChunk now chunk)
  /\ (forall r,
     normalizeResponse later (normalizeResponse now r) = normalizeResponse now r)
  /\ (forall chunk,
     (0 < String.length (chunk_Object chunk))%nat -> chunk_Created chunk <> 0 ->
     normalizeChunk now chunk = chunk)
  /\ (forall r,
     (0 < String.length (resp_Object r))%nat -> resp_Created r <> 0 ->
     normalizeResponse now r = r).
Proof.
  intros Hnow. apply Z.eqb_neq in Hnow.
  split; [|split; [|split]].
  - intros [object created rest]. unfold normalizeChunk. simpl.
    destruct (String.eqb object "") eqn:Hobject; simpl;
      destruct (created =? 0) eqn:Hcreated;
      repeat (progress (simpl; rewrite ?Hobject, ?Hcreated, ?Hnow)); reflexivity.
  - intros [object created rest]. unfold normalizeResponse. simpl.
    destruct (String.eqb object "") eqn:Hobject; simpl;
      destruct (created =? 0) eqn:Hcreated;
      repeat (progress (simpl; rewrite ?Hobject, ?Hcreated, ?Hnow)); reflexivity.
  - intros [object created rest] Hobject Hcreated. simpl in *.
    apply eqb_empty_length in Hobject. apply Z.eqb_neq in Hcreated.
    unfold normalizeChunk. simpl. rewrite Hobject. simpl. now rewrite Hcreated.
  - intros [object created rest] Hobject Hcreated. simpl in *.
    apply eqb_empty_length in Hobject. apply Z.eqb_neq in Hcreated.
    unfold normalizeResponse. simpl. rewrite Hobject. simpl. now rewrite Hcreated.
Qed.

(** A chunk with neither field, normalized at second 10 and again at 20. *)
Lemma normalize_idempotent_witness :
  normalizeChunk (20 * Second) (normalizeChunk (10 * Second) (mkChunk "" 0 "delta"))
  = normalizeChunk (10 * Second) (mkChunk "" 0 "delta").
Proof.
  apply (proj1 (normalize_idempotent (10 * Second) (20 * Second)
                  ltac:(vm_compute; discriminate))).
Defined.

(** * Further properties of the error normalizer *)

(** X6. When the body gives no message of its own, the message returned is
    at most 503 bytes of the body and dots, plus the hint; a body of 1 to
    500 bytes is returned whole, with or without the hint after it. *)
Theorem parseUpstreamError_fallback_bound `{JSON} `{Unicode} (body : string) :
  (forall r, unmarshalErrResp body = Ok r -> Error_Message r = "" /\ Message_ r = "") ->
  (String.length (parseUpstreamError body) <= 503 + String.length hint)%nat
  /\ ((0 < String.length body <= 500)%nat ->
      parseUpstreamError body = body \/ parseUpstreamError body = body ++ hint).
Proof.
  intros Hnone. unfold parseUpstreamError.
  assert (Hmsg : match unmarshalErrResp body with
                 | Ok errResp =>
                     if negb (String.eqb (Error_Message errResp) "") then Error_Message errResp
                     else if negb (String.eqb (Message_ errResp) "") then Message_ errResp
                     else ""
                 | Fail _ => ""
                 end = "").
  { destruct (unmarshalErrResp body) as [r|e]; [|reflexivity].
    destruct (Hnone r eq_refl) as [-> ->]. reflexivity. }
  rewrite Hmsg. clear Hmsg Hnone.
  remember (String.length hint) as bound eqn:Hbound. simpl.
  assert (Henh : forall m, (String.length (enhanceErrorMessage m)
                            <= String.length m + bound)%nat).
  { intros m. rewrite Hbound. unfold enhanceErrorMessage.
    destruct (_ && _); [rewrite length_append|]; lia. }
  destruct (500 <? String.length body)%nat eqn:Hlong.
  - apply Nat.ltb_lt in Hlong. split; [|intros; lia].
    destruct (String.eqb (substring 0 500 body ++ "...") ""); [simpl; lia|].
    specialize (Henh (substring 0 500 body ++ "...")).
    rewrite length_append, length_substring_0 in Henh by lia.
    change (String.length "...") with 3%nat in Henh. lia.
  - apply Nat.ltb_ge in Hlong. split.
    + destruct (String.eqb body ""); [simpl; lia|].
      specialize (Henh body). lia.
    + intros [Hpos _]. apply eqb_empty_length in Hpos. rewrite Hpos.
      unfold enhanceErrorMessage. destruct (_ && _); auto.
Qed.

(** A plain-text body under the sample decoder. *)
Lemma parseUpstreamError_fallback_bound_witness :
  (String.length (@parseUpstreamError sampleJSON sampleUnicode "oops") <= 503 + String.length hint)%nat.
Proof.
  apply (proj1 (@parseUpstreamError_fallback_bound sampleJSON sampleUnicode "oops"
                  ltac:(intros r Hr; vm_compute in Hr; discriminate Hr))).
Defined.

(** * Further properties of the credential broker *)

(** X7. While the cached token is valid beyond the margin, [getCopilotToken]
    returns it and touches nothing: whatever the store and the token
    endpoint would answer, they are not asked. *)
Theorem getCopilotToken_cached `{JSON} (env : Env) (now1 now2 : Time) (w : World) :
  tokenValid now1 (client w) = true ->
  exists token,
    copilotToken (client w) = Some token
    /\ now1 + 60 * Second < ExpiresAt token
    /\ getCopilotToken env now1 now2 w = (Ok (Token token), w)
    /\ forall env', getCopilotToken env' now1 now2 w = getCopilotToken env now1 now2 w.
Proof.
  unfold getCopilotToken, fastPath, tokenValid.
  destruct (copilotToken (client w)) as [token|]; [|discriminate].
  intros Hvalid. rewrite Hvalid. exists token.
  apply Z.ltb_lt in Hvalid. auto.
Qed.

(** A token good until second 5000, asked for at second 1000, with a store
    that has no credentials. *)
Lemma getCopilotToken_cached_witness :
  exists token,
    Some (mkCopilotToken "tid=0" (time_Unix 5000)) = Some token
    /\ 1000 * Second + 60 * Second < ExpiresAt token
    /\ @getCopilotToken sampleJSON
         (mkEnv (Fail (External "no credentials")) (fun _ _ => Fail (External "offline")))
         (1000 * Second) (1001 * Second)
         (mkWorld (mkClient (Some (mkCopilotToken "tid=0" (time_Unix 5000)))) 0)
       = (Ok (Token token),
          mkWorld (mkClient (Some (mkCopilotToken "tid=0" (time_Unix 5000)))) 0)
    /\ forall env',
         @getCopilotToken sampleJSON env' (1000 * Second) (1001 * Second)
           (mkWorld (mkClient (Some (mkCopilotToken "tid=0" (time_Unix 5000)))) 0)
         = @getCopilotToken sampleJSON
             (mkEnv (Fail (External "no credentials")) (fun _ _ => Fail (External "offline")))
             (1000 * Second) (1001 * Second)
             (mkWorld (mkClient (Some (mkCopilotToken "tid=0" (time_Unix 5000)))) 0).
Proof.
  apply (@getCopilotToken_cached sampleJSON
           (mkEnv (Fail (External "no credentials")) (fun _ _ => Fail (External "offline")))
           (1000 * Second) (1001 * Second)
           (mkWorld (mkClient (Some (mkCopilotToken "tid=0" (time_Unix 5000)))) 0)).
  reflexivity.
Defined.

Lemma slowPath_post `{JSON} (env : Env) (now : Time) (w w' : World) (r : result string) :
  slowPath env now w = (r, w') ->
  (exchanges w <= exchanges w' <= S (exchanges w))%nat
  /\ (exchanges w' = exchanges w -> client w' = client w)
  /\ match r with
     | Ok token => exists t, copilotToken (client w') = Some t /\ Token t = token
     | Fail _ => client w' = client w
     end.
Proof.
  unfold slowPath, fastPath.
  destruct (tokenValid now (client w)) eqn:Hvalid.
  - unfold tokenValid in Hvalid.
    destruct (copilotToken (client w)) as [t|] eqn:Hcache; [|discriminate].
    intros [= <- <-]. repeat split; try lia. eauto.
  - destruct (getGitHubToken env) as [githubToken|e].
    + destruct (refreshCopilotToken _) as [t|e]; intros [= <- <-]; simpl.
      * repeat split; try lia. eauto.
      * repeat split; try lia.
    + intros [= <- <-]. repeat split; lia.
Qed.

(** X8. Whatever it returns, one call of [getCopilotToken] sends at most one
    exchange request and changes the cache only when it sent one; a token it
    returns is the token of the cache afterwards, and after an error of any
    kind the cache is what it was. *)
Theorem getCopilotToken_post `{JSON} (env : Env) (now1 now2 : Time) (w w' : World)
    (r : result string) :
  getCopilotToken env now1 now2 w = (r, w') ->
  (exchanges w <= exchanges w' <= S (exchanges w))%nat
  /\ (exchanges w' = exchanges w -> client w' = client w)
  /\ match r with
     | Ok token => exists t, copilotToken (client w') = Some t /\ Token t = token
     | Fail _ => client w' = client w
     end.
Proof.
  unfold getCopilotToken.
  destruct (fastPath now1 (client w)) as [token|] eqn:Hfast; [|apply slowPath_post].
  intros [= <- <-]. repeat split; try lia.
  unfold fastPath in Hfast. destruct (tokenValid now1 (client w)); [|discriminate].
  destruct (copilotToken (client w)) as [t|]; [|discriminate].
  injection Hfast as <-. eauto.
Qed.

(** An empty cache and a token endpoint that cannot be reached. *)
Lemma getCopilotToken_post_witness :
  (0 <= 1 <= 1)%nat
  /\ (1%nat = 0%nat -> mkClient None = mkClient None)
  /\ mkClient None = mkClient None.
Proof.
  apply (@getCopilotToken_post sampleJSON
           (mkEnv (Ok (mkCreds "gho_1")) (fun _ _ => Fail (External "offline")))
           (1000 * Second) (1001 * Second)
           (mkWorld (mkClient None) 0) (mkWorld (mkClient None) 1)
           (Fail (RequestError (External "offline")))).
  reflexivity.
Defined.

Lemma time_Unix_in_range (sec : Z) :
  - 2 ^ 63 <= sec < 2 ^ 63 - unixToInternal -> time_Unix sec = sec * Second.
Proof.
  unfold time_Unix, int64, unixToInternal.
  change (2 ^ 63) with 9223372036854775808. change (2 ^ 64) with 18446744073709551616.
  intros Hsec. rewrite Z.mod_small by lia. f_equal. lia.
Qed.

Lemma time_Unix_wraps (sec : Z) :
  2 ^ 63 - unixToInternal <= sec < 2 ^ 63 -> time_Unix sec = (sec - 2 ^ 64) * Second.
Proof.
  unfold time_Unix, int64, unixToInternal.
  change (2 ^ 63) with 9223372036854775808. change (2 ^ 64) with 18446744073709551616.
  intros Hsec. f_equal.
  assert (Hmod : (sec + 62135596800 + 9223372036854775808) mod 18446744073709551616
                 = sec + 62135596800 + 9223372036854775808 - 18446744073709551616).
  { symmetry. apply Z.mod_unique with (q := 1); lia. }
  rewrite Hmod. lia.
Qed.

(** X9. [refreshCopilotToken] gives a token exactly when the request was
    answered, the body was read to its end, the status is 200 and the body
    decodes; the token is then the decoded one and its expiry is
    [time.Unix] of the decoded second. That is the instant of the second
    itself as long as [time.Unix] does not wrap around; a second within
    62135596800 of the largest [int64] wraps to an instant 2^64 seconds
    earlier, and such a token is valid at no clock reading from 1970 on. A
    body that could not be read is reported before the status is looked
    at. *)
Theorem refreshCopilotToken_success `{JSON} (reply : result http_Response)
    (token : CopilotToken) :
  (refreshCopilotToken reply = Ok token
   <-> exists upstream tokenResp,
         reply = Ok upstream
         /\ body_err (resp_Body upstream) = None
         /\ StatusCode upstream = StatusOK
         /\ unmarshalTokenResp (body_data (resp_Body upstream)) = Ok tokenResp
         /\ Token token = tr_Token tokenResp
         /\ ExpiresAt token = time_Unix (tr_ExpiresAt tokenResp))
  /\ (forall sec,
        - 2 ^ 63 <= sec < 2 ^ 63 - unixToInternal ->
        time_Unix sec = sec * Second /\ Unix (time_Unix sec) = sec)
  /\ (forall sec now name,
        2 ^ 63 - unixToInternal <= sec < 2 ^ 63 ->
        time_Unix sec = (sec - 2 ^ 64) * Second
        /\ (0 <= now ->
            tokenValid now (mkClient (Some (mkCopilotToken name (time_Unix sec)))) = false))
  /\ (forall upstream e,
        reply = Ok upstream -> body_err (resp_Body upstream) = Some e ->
        refreshCopilotToken reply = Fail (ReadError e)).
Proof.
  split; [|split; [|split]].
  - unfold refreshCopilotToken, io_ReadAll. split.
    + destruct reply as [upstream|e]; [|discriminate].
      destruct (body_err (resp_Body upstream)) eqn:Hread; [discriminate|].
      destruct (StatusCode upstream =? StatusOK) eqn:Hstatus; simpl; [|discriminate].
      destruct (unmarshalTokenResp _) as [tokenResp|e] eqn:Hdecode; [|discriminate].
      intros [= <-]. exists upstream, tokenResp. apply Z.eqb_eq in Hstatus.
      repeat split; auto.
    + intros (upstream & tokenResp & -> & Hread & Hstatus & Hdecode & Htoken & Hexpires).
      rewrite Hread, Hstatus, Hdecode. simpl.
      destruct token as [t x]. simpl in *. congruence.
  - intros sec Hsec. rewrite (time_Unix_in_range sec Hsec). split; [reflexivity|].
    unfold Unix, Second. apply Z.div_mul. discriminate.
  - intros sec now name Hsec. rewrite (time_Unix_wraps sec Hsec). split; [reflexivity|].
    intros Hnow. unfold tokenValid. simpl. apply Z.ltb_ge.
    revert Hsec. unfold Second, unixToInternal.
    change (2 ^ 63) with 9223372036854775808. change (2 ^ 64) with 18446744073709551616.
    lia.
  - intros upstream e -> Hread. unfold refreshCopilotToken, io_ReadAll.
    now rewrite Hread.
Qed.

(** X10. Two calls in a row: when the first finds no valid token and its
    exchange gives one that is still valid beyond the margin when the second
    call looks, the second call returns the same token and sends nothing,
    whatever the store and the endpoint would answer by then. *)
Theorem getCopilotToken_reuse `{JSON} (env env' : Env) (now1 now2 now3 now4 : Time)
    (w : World) (githubToken : string) (issued : CopilotToken) :
  tokenValid now1 (client w) = false ->
  tokenValid now2 (client w) = false ->
  getGitHubToken env = Ok githubToken ->
  refreshCopilotToken (httpDo env (exchanges w) githubToken) = Ok issued ->
  now3 + 60 * Second < ExpiresAt issued ->
  exists w',
    getCopilotToken env now1 now2 w = (Ok (Token issued), w')
    /\ exchanges w' = S (exchanges w)
    /\ copilotToken (client w') = Some issued
    /\ getCopilotToken env' now3 now4 w' = (Ok (Token issued), w').
Proof.
  intros Hstale1 Hstale2 Hcredentials Hexchange Hvalid.
  exists (mkWorld (mkClient (Some issued)) (S (exchanges w))).
  unfold getCopilotToken. rewrite (fastPath_invalid _ _ Hstale1).
  unfold slowPath. rewrite (fastPath_invalid _ _ Hstale2), Hcredentials, Hexchange.
  repeat split. simpl.
  unfold fastPath, tokenValid. simpl. apply Z.ltb_lt in Hvalid. now rewrite Hvalid.
Qed.

(** The token endpoint issues a token good until second 5000 and is then
    taken away; the second call, one minute later, does not need it. *)
Lemma getCopilotToken_reuse_witness :
  exists w',
    @getCopilotToken sampleJSON
      (mkEnv (Ok (mkCreds "gho_1")) (fun _ _ => Ok (mkHTTPResponse 200 (mkBody tokenBody None))))
      (1000 * Second) (1001 * Second) (mkWorld (mkClient None) 0)
    = (Ok "tid=1", w')
    /\ exchanges w' = 1%nat
    /\ copilotToken (client w') = Some (mkCopilotToken "tid=1" (time_Unix 5000))
    /\ @getCopilotToken sampleJSON
         (mkEnv (Fail (External "no credentials")) (fun _ _ => Fail (External "offline")))
         (1060 * Second) (1061 * Second) w'
       = (Ok "tid=1", w').
Proof.
  apply (@getCopilotToken_reuse sampleJSON
           (mkEnv (Ok (mkCreds "gho_1"))
                  (fun _ _ => Ok (mkHTTPResponse 200 (mkBody tokenBody None))))
           (mkEnv (Fail (External "no credentials")) (fun _ _ => Fail (External "offline")))
           (1000 * Second) (1001 * Second) (1060 * Second) (1061 * Second)
           (mkWorld (mkClient None) 0) "gho_1" (mkCopilotToken "tid=1" (time_Unix 5000)));
    reflexivity.
Defined.

(** X11. [getGitHubToken] gives a token exactly when the store has
    credentials whose refresh token is not empty, and gives that token; so
    the token it gives is never empty. *)
Theorem getGitHubToken_spec (env : Env) (githubToken : string) :
  getGitHubToken env = Ok githubToken
  <-> exists creds,
        GetOAuthCredentials env = Ok creds
        /\ RefreshToken creds = githubToken
        /\ (0 < String.length githubToken)%nat.
Proof.
  unfold getGitHubToken. split.
  - destruct (GetOAuthCredentials env) as [creds|e]; [|discriminate].
    destruct (String.eqb (RefreshToken creds) "") eqn:Hempty; [discriminate|].
    intros [= <-]. exists creds. repeat split. now apply eqb_empty_length.
  - intros (creds & -> & <- & Hlen). apply eqb_empty_length in Hlen. now rewrite Hlen.
Qed.

(** The callers that have returned. *)
Fixpoint countReturned (ps : list pc) : nat :=
  match ps with
  | [] => 0
  | p :: ps' => ((if returned p then 1 else 0) + countReturned ps')%nat
  end.

Lemma countReturned_le (ps : list pc) : (countReturned ps <= length ps)%nat.
Proof. induction ps as [|p ps IH]; simpl; [lia | destruct (returned p); lia]. Qed.

Lemma countReturned_insert (ps : list pc) (i : nat) (p q : pc) :
  ps !! i = Some p ->
  (countReturned (<[i := q]> ps) + (if returned p then 1 else 0)
   = countReturned ps + (if returned q then 1 else 0))%nat.
Proof.
  revert i. induction ps as [|p0 ps IH]; intros i Hi; [discriminate|].
  destruct i as [|i]; simpl in *.
  - injection Hi as ->. lia.
  - specialize (IH i Hi). lia.
Qed.

Lemma step_exchanges `{JSON} (env : Env) (sys : System) (sched : nat * Time) :
  (exchanges (world sys) <= exchanges (world (step env sys sched)))%nat
  /\ (exchanges (world (step env sys sched)) + countReturned (callers sys)
      <= exchanges (world sys) + countReturned (callers (step env sys sched)))%nat.
Proof.
  destruct sched as [i now]. unfold step.
  destruct (callers sys !! i) as [[| |r]|] eqn:Hi; try (simpl; lia).
  - destruct (fastPath now (client (world sys))); simpl;
      pose proof (countReturned_insert _ _ _ (Returned (Ok s)) Hi) as Hcount
      || pose proof (countReturned_insert _ _ _ AtLock Hi) as Hcount;
      simpl in Hcount; lia.
  - destruct (slowPath env now (world sys)) as [r w'] eqn:Hslow. simpl.
    apply slowPath_post in Hslow as [Hex _].
    pose proof (countReturned_insert _ _ _ (Returned r) Hi) as Hcount.
    simpl in Hcount. lia.
Qed.

(** X12. In a race of any number of callers, for any interleaving and any
    answers of the store and the token endpoint, the exchange requests sent
    are at most as many as the callers that have returned, hence at most one
    per caller; and the number of callers does not change. *)
Theorem race_exchanges_bound `{JSON} (env : Env) (w0 : World) (n : nat)
    (schedule : list (nat * Time)) :
  (exchanges w0 <= exchanges (world (run env schedule (race n w0))))%nat
  /\ (exchanges (world (run env schedule (race n w0)))
      <= exchanges w0 + countReturned (callers (run env schedule (race n w0))))%nat
  /\ (countReturned (callers (run env schedule (race n w0))) <= n)%nat
  /\ length (callers (run env schedule (race n w0))) = n.
Proof.
  assert (Hrun : forall sys,
            (exchanges (world sys) <= exchanges (world (run env schedule sys)))%nat
            /\ (exchanges (world (run env schedule sys)) + countReturned (callers sys)
                <= exchanges (world sys) + countReturned (callers (run env schedule sys)))%nat).
  { unfold run. induction schedule as [|sched schedule IH]; intros sys; simpl; [lia|].
    destruct (IH (step env sys sched)) as [IH1 IH2].
    destruct (step_exchanges env sys sched) as [Hs1 Hs2]. lia. }
  assert (Hlen : length (callers (run env schedule (race n w0))) = n).
  { rewrite run_callers_length. simpl. apply length_replicate. }
  destruct (Hrun (race n w0)) as [H1 H2].
  assert (Hzero : countReturned (callers (race n w0)) = 0%nat).
  { simpl. clear. induction n; simpl; auto. }
  rewrite Hzero in H2. simpl in H1, H2.
  pose proof (countReturned_le (callers (run env schedule (race n w0)))) as Hle.
  repeat split; lia.
Qed.

(** X13. Without usable credentials in the store no exchange request is ever
    sent and the cache never changes, for any interleaving; a caller that
    has returned has either the token that was cached or the error of the
    credentials. *)
Theorem race_without_credentials `{JSON} (env : Env) (w0 : World) (n : nat)
    (schedule : list (nat * Time)) (e : error) :
  getGitHubToken env = Fail e ->
  world (run env schedule (race n w0)) = w0
  /\ Forall (fun p => p = AtRLock \/ p = AtLock \/ p = Returned (Fail e)
                      \/ exists t, copilotToken (client w0) = Some t
                                   /\ p = Returned (Ok (Token t)))
            (callers (run env schedule (race n w0))).
Proof.
  intros Hcredentials.
  set (ok := fun p => p = AtRLock \/ p = AtLock \/ p = Returned (Fail e)
                      \/ exists t, copilotToken (client w0) = Some t
                                   /\ p = Returned (Ok (Token t))).
  assert (Hfast : forall now token, fastPath now (client w0) = Some token ->
            ok (Returned (Ok token))).
  { intros now token. unfold fastPath.
    destruct (tokenValid now (client w0)); [|discriminate].
    destruct (copilotToken (client w0)) as [t|] eqn:Hcache; [|discriminate].
    intros [= <-]. right. right. right. eauto. }
  assert (Hstep : forall sys sched,
            world sys = w0 -> Forall ok (callers sys) ->
            world (step env sys sched) = w0 /\ Forall ok (callers (step env sys sched))).
  { intros sys [i now] Hw Hall. unfold step.
    destruct (callers sys !! i) as [[| |r]|] eqn:Hi; auto.
    - rewrite Hw. destruct (fastPath now (client w0)) as [token|] eqn:Hf; simpl.
      + split; [reflexivity | apply Forall_insert; eauto].
      + split; [reflexivity | apply Forall_insert; [exact Hall | right; now left]].
    - rewrite Hw. unfold slowPath.
      destruct (fastPath now (client w0)) as [token|] eqn:Hf; simpl.
      + split; [reflexivity | apply Forall_insert; eauto].
      + rewrite Hcredentials. simpl.
        split; [reflexivity | apply Forall_insert; [exact Hall | right; right; now left]]. }
  assert (Hrun : forall sys, world sys = w0 -> Forall ok (callers sys) ->
            world (run env schedule sys) = w0 /\ Forall ok (callers (run env schedule sys))).
  { unfold run. induction schedule as [|sched schedule IH]; intros sys Hw Hall; simpl; auto.
    destruct (Hstep sys sched Hw Hall) as [Hw' Hall']. now apply IH. }
  apply Hrun; [reflexivity|]. simpl. apply Forall_replicate. now left.
Qed.

(** Two callers, an empty cache and a store without credentials. *)
Lemma race_without_credentials_witness :
  world (@run sampleJSON
           (mkEnv (Fail (External "no credentials"))
                  (fun _ _ => Ok (mkHTTPResponse 200 (mkBody tokenBody None))))
           [(0%nat, 1000 * Second); (1%nat, 1000 * Second); (0%nat, 1001 * Second)]
           (race 2 (mkWorld (mkClient None) 0)))
  = mkWorld (mkClient None) 0
  /\ Forall (fun p => p = AtRLock \/ p = AtLock
                      \/ p = Returned (Fail (CredentialsError (External "no credentials")))
                      \/ exists t, None = Some t /\ p = Returned (Ok (Token t)))
       (callers (@run sampleJSON
           (mkEnv (Fail (External "no credentials"))
                  (fun _ _ => Ok (mkHTTPResponse 200 (mkBody tokenBody None))))
           [(0%nat, 1000 * Second); (1%nat, 1000 * Second); (0%nat, 1001 * Second)]
           (race 2 (mkWorld (mkClient None) 0)))).
Proof.
  apply (@race_without_credentials sampleJSON
           (mkEnv (Fail (External "no credentials"))
                  (fun _ _ => Ok (mkHTTPResponse 200 (mkBody tokenBody None))))
           (mkWorld (mkClient None) 0) 2
           [(0%nat, 1000 * Second); (1%nat, 1000 * Second); (0%nat, 1001 * Second)]
           (CredentialsError (External "no credentials"))).
  reflexivity.
Defined.

(** * The chat request: model *)

(** ** HTTP headers *)

(** The bytes a header name may hold: letters, digits and the marks of an
    HTTP token. *)
Definition validHeaderFieldByte (c : ascii) : bool :=
  let n := nat_of_ascii c in
  ((48 <=? n) && (n <=? 57) || (65 <=? n) && (n <=? 90) || (97 <=? n) && (n <=? 122))%nat
  || existsb (Ascii.eqb c)
       ["!"; "#"; "$"; "%"; "&"; "'"; "*"; "+"; "-"; "."; "^"; "_"; "`"; "|"; "~"]%char.

Fixpoint validHeaderField (key : string) : bool :=
  match key with
  | EmptyString => true
  | String c key' => validHeaderFieldByte c && validHeaderField key'
  end.

Definition upper_byte (c : ascii) : ascii :=
  let n := nat_of_ascii c in
  if ((97 <=? n) && (n <=? 122))%nat then ascii_of_nat (n - 32) else c.

(** The loop of [textproto.CanonicalMIMEHeaderKey]: the first letter and
    every letter after a hyphen in upper case, the others in lower case. *)
Fixpoint canonicalLoop (upper : bool) (key : string) : string :=
  match key with
  | EmptyString => EmptyString
  | String c key' =>
      let c := if upper then upper_byte c else lower_byte c in
      String c (canonicalLoop (Ascii.eqb c "-") key')
  end.

(** [textproto.CanonicalMIMEHeaderKey]: a name with a byte that no header
    name may hold is left as it is. *)
Definition CanonicalMIMEHeaderKey (key : string) : string :=
  if validHeaderField key then canonicalLoop true key else key.

(** [http.Header] with one value per name, which is all [Set] leaves. *)
Definition Header_Set (key value : string) (h : gmap string string) : gmap string string :=
  <[CanonicalMIMEHeaderKey key := value]> h.

(** [http.Header.Get], [None] for a name that is not there. *)
Definition Header_Get (key : string) (h : gmap string string) : option string :=
  h !! CanonicalMIMEHeaderKey key.

(** ** Requests *)

(** [http.Request]: what [SendRequest] sets. *)
Record Request := mkRequest {
  Method : string;
  URL : string;
  Header : gmap string string;
  req_Body : string
}.

(** [api.ChatCompletionRequest] and [provider.ChatCompletionRequest], which
    have the same fields: the model, the messages, the streaming flag, and
    the tools, sampling parameters and limits, carried as one value. *)
Record ChatCompletionRequest := mkChatRequest {
  req_Model : string;
  req_Messages : slice;
  req_Stream : bool;
  req_params : string
}.

(** The constants of the package, which are declared outside the sources at
    hand, with [httputil.BuildUserAgent] and the encoding of a chat request,
    with the messages it holds, by [json.Marshal]. *)
Class Wire := {
  CopilotChatURL : string;
  EditorVersion : string;
  EditorPluginVersion : string;
  CopilotIntegrationID : string;
  GitHubAPIVersion : string;
  BuildUserAgent : string -> string -> string;
  json_Marshal : ChatCompletionRequest -> list Message -> result string
}.

(** What [SendRequest] meets outside, besides the broker's [Env]: the
    identifier [uuid.New] draws, and the answer of the HTTP client to the
    chat request. *)
Record ChatEnv := mkChatEnv {
  broker : Env;
  uuid_New : string;
  chatDo : Request -> result http_Response
}.

(** The errors of [SendRequest]: the broker's error, returned as it is, and
    the two it wraps. *)
Inductive sendError : Type :=
  | TokenError (e : error)
  | MarshalError (cause : error)
  | SendError (cause : error).

(** The headers [SendRequest] sets, in source order. *)
Definition chatHeaders `{Wire} (cenv : ChatEnv) (token : string)
    (chatReq : ChatCompletionRequest) (messages : list Message) : gmap string string :=
  let h := Header_Set "Authorization" ("Bearer " ++ token) ∅ in
  let h := Header_Set "Content-Type" "application/json" h in
  let h := if req_Stream chatReq
           then Header_Set "Accept" "text/event-stream" h
           else Header_Set "Accept" "application/json" h in
  let h := Header_Set "User-Agent" (BuildUserAgent "GitHubCopilotChat" "0.26.7") h in
  let h := Header_Set "Editor-Version" EditorVersion h in
  let h := Header_Set "Editor-Plugin-Version" EditorPluginVersion h in
  let h := Header_Set "Copilot-Integration-Id" CopilotIntegrationID h in
  let h := Header_Set "X-GitHub-API-Version" GitHubAPIVersion h in
  let h := Header_Set "X-Request-Id" (uuid_New cenv) h in
  let h := Header_Set "X-Initiator" (getInitiator messages) h in
  let h := Header_Set "Openai-Intent" "conversation-panel" h in
  if hasImageContent messages then Header_Set "Copilot-Vision-Request" "true" h else h.

(** [SendRequest]: what it returns, the client and upstream afterwards, and
    the request it handed to the HTTP client, if it got that far. [None] is
    a message slice that reaches beyond its array. *)
Definition SendRequest `{JSON} `{Wire} (cenv : ChatEnv) (now1 now2 : Time)
    (h : gmap loc (list Message)) (chatReq : ChatCompletionRequest) (w : World)
    : option ((sendError + http_Response) * World * option Request) :=
  match getCopilotToken (broker cenv) now1 now2 w with
  | (Fail e, w) => Some (inl (TokenError e), w, None)
  | (Ok token, w) =>
      messages ← contents h (req_Messages chatReq);
      match json_Marshal chatReq messages with
      | Fail e => Some (inl (MarshalError e), w, None)
      | Ok body =>
          let req := mkRequest "POST" CopilotChatURL
                       (chatHeaders cenv token chatReq messages) body in
          match chatDo cenv req with
          | Fail e => Some (inl (SendError e), w, Some req)
          | Ok resp => Some (inr resp, w, Some req)
          end
      end
  end.

(** [ChatCompletion]: the stream or the error, with the heap, the client
    and upstream afterwards, and the request sent. *)
Definition ChatCompletion `{JSON} `{SSE} `{Wire} (cenv : ChatEnv) (now1 now2 : Time)
    (h : gmap loc (list Message)) (req : ChatCompletionRequest) (w : World)
    : option ((sendError + Stream) * gmap loc (list Message) * World * option Request) :=
  '(h, messages) ← transformMessages h (req_Messages req);
  let chatReq := mkChatRequest (req_Model req) messages (req_Stream req) (req_params req) in
  '(r, w, sent) ← SendRequest cenv now1 now2 h chatReq w;
  match r with
  | inl e => Some (inl e, h, w, sent)
  | inr resp => Some (inr (NewStream resp (req_Stream req)), h, w, sent)
  end.

(** ** Environment variable documents *)

(** [EnvVarDoc] of the package. *)
Record EnvVarDoc := mkEnvVarDoc {
  doc_Name : string;
  doc_Description : string;
  doc_Default : string
}.

(** [provider.EnvVarDoc], with the three fields the conversion sets. *)
Record provider_EnvVarDoc := mkProviderEnvVarDoc {
  Name : string;
  Description : string;
  Default : string
}.

(** The loop of [convertEnvVarDocs]: [result[i]] is written for every index
    and document of [docs], from index [i] on. *)
Fixpoint convertLoop (i : nat) (docs : list EnvVarDoc) (result : list provider_EnvVarDoc)
    : list provider_EnvVarDoc :=
  match docs with
  | [] => result
  | d :: docs' =>
      convertLoop (S i) docs'
        (<[i := mkProviderEnvVarDoc (doc_Name d) (doc_Description d) (doc_Default d)]> result)
  end.

(** [convertEnvVarDocs] *)
Definition convertEnvVarDocs (docs : list EnvVarDoc) : list provider_EnvVarDoc :=
  convertLoop 0 docs (replicate (length docs) (mkProviderEnvVarDoc "" "" "")).

(** * The chat request: properties *)

(** A message that makes the request a follow-up once the roles are
    remapped: its role is system, assistant or tool. *)
Definition agentRole (msg : Message) : Prop :=
  Role msg = "system" \/ Role msg = "assistant" \/ Role msg = "tool".

Lemma agentRole_dec (msg : Message) : {agentRole msg} + {~ agentRole msg}.
Proof.
  unfold agentRole.
  destruct (string_dec (Role msg) "system"); [left; tauto|].
  destruct (string_dec (Role msg) "assistant"); [left; tauto|].
  destruct (string_dec (Role msg) "tool"); [left; tauto | right; tauto].
Qed.

Lemma getInitiator_remapMessage (msg : Message) (messages : list Message) :
  getInitiator (map remapMessage (msg :: messages))
  = if agentRole_dec msg then "agent" else getInitiator (map remapMessage messages).
Proof.
  simpl. unfold remapRole, agentRole in *.
  destruct (agentRole_dec msg) as [Hagent | Hnot]; unfold agentRole in *.
  - destruct (String.eqb (Role msg) "system") eqn:Hsys; [reflexivity|].
    apply String.eqb_neq in Hsys.
    destruct Hagent as [? | [-> | ->]]; [contradiction | reflexivity | reflexivity].
  - destruct (String.eqb (Role msg) "system") eqn:Hsys.
    + apply String.eqb_eq in Hsys. tauto.
    + destruct (String.eqb (Role msg) "assistant") eqn:Ha.
      * apply String.eqb_eq in Ha. tauto.
      * destruct (String.eqb (Role msg) "tool") eqn:Ht; [|reflexivity].
        apply String.eqb_eq in Ht. tauto.
Qed.

(** X14. The initiator computed on the remapped messages, as
    [ChatCompletion] hands them to [SendRequest]: it is "agent" exactly when
    some message of the caller has role system, assistant or tool, and
    "user" exactly when none has; so a conversation that opens with a system
    message is never sent as "user". *)
Theorem getInitiator_remap (messages : list Message) :
  (getInitiator (map remapMessage messages) = "agent" <-> Exists agentRole messages)
  /\ (getInitiator (map remapMessage messages) = "user"
      <-> Forall (fun msg => ~ agentRole msg) messages).
Proof.
  induction messages as [|msg messages [IHa IHu]].
  - simpl. split; split; intros Hx; try constructor; try discriminate. inversion Hx.
  - rewrite getInitiator_remapMessage.
    destruct (agentRole_dec msg) as [Hagent | Hnot].
    + split; split; intros Hx; try reflexivity; try discriminate.
      * now constructor.
      * inversion Hx; subst. contradiction.
    + split; split; intros Hx.
      * apply Exists_cons_tl. now apply IHa.
      * inversion Hx; subst; [contradiction | now apply IHa].
      * constructor; [exact Hnot | now apply IHu].
      * inversion Hx; subst. now apply IHu.
Qed.

(** X15. Remapping the roles does not change the vision flag. *)
Theorem hasImageContent_remap (messages : list Message) :
  hasImageContent (map remapMessage messages) = hasImageContent messages.
Proof.
  induction messages as [|msg messages IH]; simpl; [reflexivity|].
  unfold GetContentParts in *. simpl. now rewrite IH.
Qed.

Lemma convertLoop_spec (docs : list EnvVarDoc) :
  forall (done_ : list provider_EnvVarDoc) (rest : list provider_EnvVarDoc),
    length rest = length docs ->
    convertLoop (length done_) docs (done_ ++ rest)%list
    = (done_ ++ map (fun d => mkProviderEnvVarDoc (doc_Name d) (doc_Description d)
                                                  (doc_Default d)) docs)%list.
Proof.
  induction docs as [|d docs IH]; intros done_ rest Hrest; simpl.
  - destruct rest; [reflexivity | discriminate].
  - destruct rest as [|r rest]; [discriminate|]. simpl in Hrest.
    replace (length done_) with (length done_ + 0)%nat at 2 by lia.
    rewrite insert_app_r. simpl.
    specialize (IH (done_ ++ [mkProviderEnvVarDoc (doc_Name d) (doc_Description d)
                                                   (doc_Default d)])%list rest).
    rewrite length_app, <- app_assoc in IH. simpl in IH.
    replace (length done_ + 1)%nat with (S (length done_)) in IH by lia.
    rewrite IH by lia. now rewrite <- app_assoc.
Qed.

(** X16. [convertEnvVarDocs] gives one document per document, in the same
    order, each with the name, description and default of its original; no
    index it writes is out of range. *)
Theorem convertEnvVarDocs_spec (docs : list EnvVarDoc) :
  convertEnvVarDocs docs
  = map (fun d => mkProviderEnvVarDoc (doc_Name d) (doc_Description d) (doc_Default d)) docs
  /\ length (convertEnvVarDocs docs) = length docs
  /\ (forall i d, docs !! i = Some d ->
        exists d', convertEnvVarDocs docs !! i = Some d'
          /\ Name d' = doc_Name d /\ Description d' = doc_Description d
          /\ Default d' = doc_Default d).
Proof.
  assert (Hmap : convertEnvVarDocs docs
            = map (fun d => mkProviderEnvVarDoc (doc_Name d) (doc_Description d)
                                                (doc_Default d)) docs).
  { unfold convertEnvVarDocs.
    apply (convertLoop_spec docs [] (replicate (length docs) (mkProviderEnvVarDoc "" "" ""))).
    apply length_replicate. }
  rewrite Hmap. split; [reflexivity | split].
  - apply length_map.
  - intros i d Hi. eexists. rewrite list_lookup_fmap, Hi. simpl. repeat split.
Qed.

Lemma getCopilotToken_error_keeps_cache `{JSON} (env : Env) (now1 now2 : Time)
    (w w' : World) (e : error) :
  getCopilotToken env now1 now2 w = (Fail e, w') -> client w' = client w.
Proof.
  unfold getCopilotToken.
  destruct (fastPath now1 (client w)); [discriminate|].
  intros Hslow. apply slowPath_post in Hslow. tauto.
Qed.

Lemma getCopilotToken_returns_cached `{JSON} (env : Env) (now1 now2 : Time)
    (w w' : World) (token : string) :
  getCopilotToken env now1 now2 w = (Ok token, w') ->
  exists t, copilotToken (client w') = Some t /\ Token t = token.
Proof.
  unfold getCopilotToken.
  destruct (fastPath now1 (client w)) as [cached|] eqn:Hfast.
  - intros [= <- <-]. unfold fastPath in Hfast.
    destruct (tokenValid now1 (client w)); [|discriminate].
    destruct (copilotToken (client w)) as [t|]; [|discriminate].
    injection Hfast as <-. eauto.
  - intros Hslow. apply slowPath_post in Hslow as (_ & _ & Hcached). exact Hcached.
Qed.

(** X17. When the broker has no token to give, [SendRequest] returns the
    broker's error as it is and hands no request to the HTTP client; the
    request is not even encoded, and the cache is what it was. *)
Theorem SendRequest_token_failure `{JSON} `{Wire} (cenv : ChatEnv) (now1 now2 : Time)
    (h : gmap loc (list Message)) (chatReq : ChatCompletionRequest) (w w' : World)
    (e : error) :
  getCopilotToken (broker cenv) now1 now2 w = (Fail e, w') ->
  SendRequest cenv now1 now2 h chatReq w = Some (inl (TokenError e), w', None)
  /\ client w' = client w.
Proof.
  intros Htoken. unfold SendRequest. rewrite Htoken. split; [reflexivity|].
  now apply getCopilotToken_error_keeps_cache in Htoken.
Qed.

(** The names of the headers, as [Set] and [Get] spell them. *)
Lemma chatHeaders_unfold `{Wire} (cenv : ChatEnv) (token : string)
    (chatReq : ChatCompletionRequest) (messages : list Message) :
  chatHeaders cenv token chatReq messages
  = (let h : gmap string string := <["Authorization" := "Bearer " ++ token]> ∅ in
     let h := <["Content-Type" := "application/json"]> h in
     let h := <["Accept" := if req_Stream chatReq then "text/event-stream"
                            else "application/json"]> h in
     let h := <["User-Agent" := BuildUserAgent "GitHubCopilotChat" "0.26.7"]> h in
     let h := <["Editor-Version" := EditorVersion]> h in
     let h := <["Editor-Plugin-Version" := EditorPluginVersion]> h in
     let h := <["Copilot-Integration-Id" := CopilotIntegrationID]> h in
     let h := <["X-Github-Api-Version" := GitHubAPIVersion]> h in
     let h := <["X-Request-Id" := uuid_New cenv]> h in
     let h := <["X-Initiator" := getInitiator messages]> h in
     let h := <["Openai-Intent" := "conversation-panel"]> h in
     if hasImageContent messages then <["Copilot-Vision-Request" := "true"]> h else h).
Proof.
  unfold chatHeaders. destruct (req_Stream chatReq); reflexivity.
Qed.

Ltac header_lookup :=
  repeat (rewrite lookup_insert_ne by discriminate);
  first [apply lookup_insert_eq | apply lookup_empty].

(** What the headers of a chat request hold. *)
Lemma chatHeaders_spec `{Wire} (cenv : ChatEnv) (token : string)
    (chatReq : ChatCompletionRequest) (messages : list Message) :
  let headers := chatHeaders cenv token chatReq messages in
  Header_Get "Authorization" headers = Some ("Bearer " ++ token)
  /\ Header_Get "Content-Type" headers = Some "application/json"
  /\ Header_Get "Accept" headers
     = Some (if req_Stream chatReq then "text/event-stream" else "application/json")
  /\ Header_Get "X-Request-Id" headers = Some (uuid_New cenv)
  /\ Header_Get "X-Initiator" headers = Some (getInitiator messages)
  /\ Header_Get "Openai-Intent" headers = Some "conversation-panel"
  /\ Header_Get "x-github-api-version" headers = Some GitHubAPIVersion
  /\ Header_Get "Copilot-Vision-Request" headers
     = (if hasImageContent messages then Some "true" else None).
Proof.
  cbv zeta. rewrite chatHeaders_unfold. unfold Header_Get. cbv zeta.
  destruct (hasImageContent messages); repeat split;
    match goal with
    | |- _ !! ?k = _ => let k' := eval vm_compute in k in change k with k'
    end; header_lookup.
Qed.

Lemma hasImageContent_true (messages : list Message) :
  hasImageContent messages = true
  <-> Exists (fun msg => Exists imagePart (GetContentParts msg)) messages.
Proof.
  induction messages as [|msg messages IH]; simpl.
  - split; [discriminate | intros Hx; inversion Hx].
  - destruct (hasImagePart (GetContentParts msg)) eqn:Hp.
    + apply hasImagePart_spec in Hp. split; [now constructor | reflexivity].
    + rewrite IH. split; intros Hx.
      * now apply Exists_cons_tl.
      * inversion Hx as [m l Hhead | m l Htail]; subst; [|assumption].
        apply hasImagePart_spec in Hhead. congruence.
Qed.

(** The request [SendRequest] hands over, when it does. *)
Lemma SendRequest_sent `{JSON} `{Wire} (cenv : ChatEnv) (now1 now2 : Time)
    (h : gmap loc (list Message)) (chatReq : ChatCompletionRequest) (w w' : World)
    (r : sendError + http_Response) (request : Request) :
  SendRequest cenv now1 now2 h chatReq w = Some (r, w', Some request) ->
  exists token messages,
    copilotToken (client w') = Some token
    /\ contents h (req_Messages chatReq) = Some messages
    /\ json_Marshal chatReq messages = Ok (req_Body request)
    /\ request = mkRequest "POST" CopilotChatURL
                   (chatHeaders cenv (Token token) chatReq messages) (req_Body request)
    /\ r = match chatDo cenv request with
           | Ok upstream => inr upstream
           | Fail e => inl (SendError e)
           end.
Proof.
  unfold SendRequest.
  destruct (getCopilotToken (broker cenv) now1 now2 w) as [[token|e] w1] eqn:Htoken;
    [|discriminate].
  apply getCopilotToken_returns_cached in Htoken as (t & Hcache & Ht).
  destruct (contents h (req_Messages chatReq)) as [messages|]; [|discriminate]. simpl.
  destruct (json_Marshal chatReq messages) as [body|e] eqn:Hbody; [|discriminate].
  set (req := mkRequest "POST" CopilotChatURL (chatHeaders cenv token chatReq messages) body).
  intros Hsend.
  assert (Hsent : req = request /\ w1 = w'
                  /\ r = match chatDo cenv req with
                         | Ok upstream => inr upstream
                         | Fail e => inl (SendError e)
                         end).
  { destruct (chatDo cenv req); injection Hsend as <- <- <-; auto. }
  destruct Hsent as (<- & <- & ->).
  exists t, messages. subst token. simpl. auto.
Qed.

(** X18. A chat request that [SendRequest] hands to the HTTP client is a
    POST to the chat URL whose body is the encoding of the request, whose
    bearer credential is the token now in the cache, whose Accept header
    follows the streaming flag, whose initiator is that of its messages, and
    which carries the vision header, with value "true", exactly when some
    message has an image part. What [SendRequest] returns is the answer of
    the HTTP client to it, an error being wrapped. *)
Theorem SendRequest_request `{JSON} `{Wire} (cenv : ChatEnv) (now1 now2 : Time)
    (h : gmap loc (list Message)) (chatReq : ChatCompletionRequest) (w w' : World)
    (r : sendError + http_Response) (request : Request) :
  SendRequest cenv now1 now2 h chatReq w = Some (r, w', Some request) ->
  exists token messages,
    copilotToken (client w') = Some token
    /\ contents h (req_Messages chatReq) = Some messages
    /\ Method request = "POST"
    /\ URL request = CopilotChatURL
    /\ json_Marshal chatReq messages = Ok (req_Body request)
    /\ Header_Get "Authorization" (Header request) = Some ("Bearer " ++ Token token)
    /\ Header_Get "Accept" (Header request)
       = Some (if req_Stream chatReq then "text/event-stream" else "application/json")
    /\ Header_Get "X-Initiator" (Header request) = Some (getInitiator messages)
    /\ Header_Get "X-Request-Id" (Header request) = Some (uuid_New cenv)
    /\ Header_Get "Copilot-Vision-Request" (Header request)
       = (if hasImageContent messages then Some "true" else None)
    /\ (Header_Get "Copilot-Vision-Request" (Header request) = Some "true"
        <-> Exists (fun msg => Exists imagePart (GetContentParts msg)) messages)
    /\ r = match chatDo cenv request with
           | Ok upstream => inr upstream
           | Fail e => inl (SendError e)
           end.
Proof.
  intros Hsend.
  apply SendRequest_sent in Hsend as (token & messages & Hcache & Hmessages & Hbody & -> & ->).
  destruct (chatHeaders_spec cenv (Token token) chatReq messages)
    as (Hauth & _ & Haccept & Hid & Hinit & _ & _ & Hvision).
  exists token, messages. simpl.
  split; [exact Hcache|]. split; [exact Hmessages|]. split; [reflexivity|].
  split; [reflexivity|]. split; [exact Hbody|]. split; [exact Hauth|].
  split; [exact Haccept|]. split; [exact Hinit|]. split; [exact Hid|].
  split; [exact Hvision|]. split; [|reflexivity].
  rewrite Hvision, <- hasImageContent_true.
  destruct (hasImageContent messages); split; congruence.
Qed.

(** Stand-ins for the constants of the package, and an encoder that gives
    the empty object. *)
Definition sampleWire : Wire := {|
  CopilotChatURL := "https://copilot.test/chat/completions";
  EditorVersion := "vscode/1.0";
  EditorPluginVersion := "copilot-chat/0.26.7";
  CopilotIntegrationID := "vscode-chat";
  GitHubAPIVersion := "2025-04-01";
  BuildUserAgent name version := name ++ "/" ++ version;
  json_Marshal _ _ := Ok "{}"
|}.

(** A heap with one conversation: a system message and a user message with
    an image. *)
Definition sampleHeap : gmap loc (list Message) :=
  {[ 7%nat := [mkMessage "system" [mkPart "text" "be brief"] "";
               mkMessage "user" [mkPart "text" "what is this"; mkPart "image_url" "u"] ""] ]}.

Definition sampleChatEnv (store : result OAuthCredentials) (status : Z) (body : string)
    : ChatEnv :=
  mkChatEnv (mkEnv store (fun _ _ => Ok (mkHTTPResponse 200 (mkBody tokenBody None))))
            "00000000-0000-4000-8000-000000000000"
            (fun _ => Ok (mkHTTPResponse status (mkBody body None))).

(** A store without credentials: nothing is sent. *)
Lemma SendRequest_token_failure_witness :
  @SendRequest sampleJSON sampleWire (sampleChatEnv (Fail (External "no credentials")) 200 "{}")
    (1000 * Second) (1001 * Second) sampleHeap
    (mkChatRequest "gpt-4o" (mkSlice 7%nat 2%nat) true "") (mkWorld (mkClient None) 0)
  = Some (inl (TokenError (CredentialsError (External "no credentials"))),
          mkWorld (mkClient None) 0, None)
  /\ mkClient None = mkClient None.
Proof.
  apply (@SendRequest_token_failure sampleJSON sampleWire
           (sampleChatEnv (Fail (External "no credentials")) 200 "{}")
           (1000 * Second) (1001 * Second) sampleHeap
           (mkChatRequest "gpt-4o" (mkSlice 7%nat 2%nat) true "")
           (mkWorld (mkClient None) 0) (mkWorld (mkClient None) 0)
           (CredentialsError (External "no credentials"))).
  reflexivity.
Defined.

(** The request sent for the sample conversation. *)
Definition sampleRequest : Request :=
  mkRequest "POST" "https://copilot.test/chat/completions"
    (@chatHeaders sampleWire (sampleChatEnv (Ok (mkCreds "gho_1")) 200 "{}") "tid=1"
       (mkChatRequest "gpt-4o" (mkSlice 7%nat 2%nat) true "")
       [mkMessage "system" [mkPart "text" "be brief"] "";
        mkMessage "user" [mkPart "text" "what is this"; mkPart "image_url" "u"] ""])
    "{}".

(** The sample conversation sent as it is, with a fresh token. *)
Lemma SendRequest_request_witness :
  exists token messages,
    Some (mkCopilotToken "tid=1" (time_Unix 5000)) = Some token
    /\ contents sampleHeap (mkSlice 7%nat 2%nat) = Some messages
    /\ Method sampleRequest = "POST"
    /\ URL sampleRequest = "https://copilot.test/chat/completions"
    /\ (Ok "{}" : result string) = Ok (req_Body sampleRequest)
    /\ Header_Get "Authorization" (Header sampleRequest) = Some ("Bearer " ++ Token token)
    /\ Header_Get "Accept" (Header sampleRequest) = Some "text/event-stream"
    /\ Header_Get "X-Initiator" (Header sampleRequest) = Some (getInitiator messages)
    /\ Header_Get "X-Request-Id" (Header sampleRequest)
       = Some "00000000-0000-4000-8000-000000000000"
    /\ Header_Get "Copilot-Vision-Request" (Header sampleRequest)
       = (if hasImageContent messages then Some "true" else None)
    /\ (Header_Get "Copilot-Vision-Request" (Header sampleRequest) = Some "true"
        <-> Exists (fun msg => Exists imagePart (GetContentParts msg)) messages)
    /\ (inr (mkHTTPResponse 200 (mkBody "{}" None)) : sendError + http_Response)
       = inr (mkHTTPResponse 200 (mkBody "{}" None)).
Proof.
  apply (@SendRequest_request sampleJSON sampleWire
           (sampleChatEnv (Ok (mkCreds "gho_1")) 200 "{}")
           (1000 * Second) (1001 * Second) sampleHeap
           (mkChatRequest "gpt-4o" (mkSlice 7%nat 2%nat) true "")
           (mkWorld (mkClient None) 0)
           (mkWorld (mkClient (Some (mkCopilotToken "tid=1" (time_Unix 5000)))) 1)
           (inr (mkHTTPResponse 200 (mkBody "{}" None))) sampleRequest).
  reflexivity.
Defined.

(** The heap and the slice [transformMessages] gives. *)
Lemma transformMessages_result (h : gmap loc (list Message)) (messages : slice)
    (original : list Message) :
  contents h messages = Some original ->
  h !! fresh (dom h) = None
  /\ transformMessages h messages
     = Some (<[fresh (dom h) := map remapMessage original]> h,
             mkSlice (fresh (dom h)) (len messages))
  /\ contents (<[fresh (dom h) := map remapMessage original]> h)
              (mkSlice (fresh (dom h)) (len messages))
     = Some (map remapMessage original)
  /\ contents (<[fresh (dom h) := map remapMessage original]> h) messages = Some original.
Proof.
  unfold contents. intros Hcontents.
  destruct (h !! ptr messages) as [arr|] eqn:Harr; [|discriminate]. simpl in Hcontents.
  destruct (len messages <=? length arr)%nat eqn:Hlen; [|discriminate].
  apply Nat.leb_le in Hlen. injection Hcontents as Horiginal.
  assert (Hn : length original = len messages).
  { rewrite <- Horiginal, length_take. lia. }
  set (p := fresh (dom h)).
  assert (Hfresh : h !! p = None) by (apply not_elem_of_dom, is_fresh).
  assert (Hp : p <> ptr messages) by congruence.
  split; [exact Hfresh | split; [|split]].
  - unfold transformMessages, make. fold p.
    pose proof (transformLoop_spec h messages arr original p Harr Horiginal Hlen Hp
                  (len messages) 0%nat eq_refl) as Hloop.
    unfold partial in Hloop. rewrite take_0, Nat.sub_0_r, Hn in Hloop. simpl in Hloop.
    rewrite Hloop. reflexivity.
  - simpl. rewrite lookup_insert_eq. simpl.
    rewrite length_map, Hn, Nat.leb_refl.
    rewrite <- Hn, <- (length_map remapMessage original), firstn_all. reflexivity.
  - rewrite lookup_insert_ne by exact Hp. rewrite Harr. simpl.
    apply Nat.leb_le in Hlen. rewrite Hlen, Horiginal. reflexivity.
Qed.

(** X19. [ChatCompletion] on a well-formed message slice returns, and leaves
    the caller's messages and every array of the heap as they were. It hands
    a request to the HTTP client unless the broker or the encoder fails; the
    request has the caller's messages with the roles remapped, so its
    initiator is "agent" exactly when some message has role system,
    assistant or tool, and its vision header is there exactly when the
    caller's messages hold an image. An answer of the HTTP client, of any
    status, comes back as a new stream in the mode the request asks for. *)
Theorem ChatCompletion_spec `{JSON} `{SSE} `{Wire} (cenv : ChatEnv) (now1 now2 : Time)
    (h : gmap loc (list Message)) (req : ChatCompletionRequest) (w : World)
    (original : list Message) :
  contents h (req_Messages req) = Some original ->
  exists r h' w' sent,
    ChatCompletion cenv now1 now2 h req w = Some (r, h', w', sent)
    /\ contents h' (req_Messages req) = Some original
    /\ (forall p arr, h !! p = Some arr -> h' !! p = Some arr)
    /\ (forall request, sent = Some request ->
          exists wire,
            json_Marshal (mkChatRequest (req_Model req) wire (req_Stream req)
                                        (req_params req))
                         (map remapMessage original) = Ok (req_Body request)
            /\ contents h' wire = Some (map remapMessage original)
            /\ Header_Get "X-Initiator" (Header request)
               = Some (getInitiator (map remapMessage original))
            /\ (Header_Get "X-Initiator" (Header request) = Some "agent"
                <-> Exists agentRole original)
            /\ Header_Get "Copilot-Vision-Request" (Header request)
               = (if hasImageContent original then Some "true" else None))
    /\ match r with
       | inr stream =>
           exists request upstream,
             sent = Some request
             /\ chatDo cenv request = Ok upstream
             /\ stream = NewStream upstream (req_Stream req)
       | inl (SendError e) =>
           exists request, sent = Some request /\ chatDo cenv request = Fail e
       | inl (TokenError e) =>
           sent = None /\ fst (getCopilotToken (broker cenv) now1 now2 w) = Fail e
       | inl (MarshalError e) => sent = None
       end.
Proof.
  intros Hcontents.
  destruct (transformMessages_result h (req_Messages req) original Hcontents)
    as (Hfresh & Htransform & Hwire & Hkept).
  set (p := fresh (dom h)) in *.
  set (h' := <[p := map remapMessage original]> h) in *.
  set (wire := mkSlice p (len (req_Messages req))) in *.
  unfold ChatCompletion. rewrite Htransform. simpl.
  set (chatReq := mkChatRequest (req_Model req) wire (req_Stream req) (req_params req)).
  assert (Hkeep : forall q arr, h !! q = Some arr -> h' !! q = Some arr).
  { intros q arr Hq. unfold h'. rewrite lookup_insert_ne by congruence. exact Hq. }
  destruct (SendRequest cenv now1 now2 h' chatReq w) as [[[r w'] sent]|] eqn:Hsend.
  - simpl.
    assert (Hsent : forall request, sent = Some request ->
              exists wire0,
                json_Marshal (mkChatRequest (req_Model req) wire0 (req_Stream req)
                                            (req_params req))
                             (map remapMessage original) = Ok (req_Body request)
                /\ contents h' wire0 = Some (map remapMessage original)
                /\ Header_Get "X-Initiator" (Header request)
                   = Some (getInitiator (map remapMessage original))
                /\ (Header_Get "X-Initiator" (Header request) = Some "agent"
                    <-> Exists agentRole original)
                /\ Header_Get "Copilot-Vision-Request" (Header request)
                   = (if hasImageContent original then Some "true" else None)).
    { intros request ->.
      apply SendRequest_sent in Hsend as (t & messages & _ & Hmessages & Hbody & Hreq & _).
      simpl in Hmessages. rewrite Hwire in Hmessages. injection Hmessages as <-.
      destruct (chatHeaders_spec cenv (Token t) chatReq (map remapMessage original))
        as (_ & _ & _ & _ & Hinit & _ & _ & Hvision).
      rewrite Hreq. cbn [Header req_Body].
      exists wire. split; [exact Hbody | split; [exact Hwire | split; [exact Hinit | split]]].
      - rewrite Hinit. clear.
        induction original as [|msg original IH].
        + simpl. split; [discriminate | intros Hx; inversion Hx].
        + rewrite getInitiator_remapMessage.
          destruct (agentRole_dec msg) as [Hagent | Hnot].
          * split; [now constructor | reflexivity].
          * rewrite IH. split; intros Hx; [now apply Exists_cons_tl|].
            inversion Hx; subst; [contradiction | assumption].
      - assert (Himage : hasImageContent (map remapMessage original)
                         = hasImageContent original).
        { clear. induction original as [|msg original IH]; simpl; [reflexivity|].
          unfold GetContentParts in *. simpl. now rewrite IH. }
        now rewrite Hvision, Himage. }
    assert (Hr : match r with
                 | inr upstream =>
                     exists request, sent = Some request /\ chatDo cenv request = Ok upstream
                 | inl (SendError e) =>
                     exists request, sent = Some request /\ chatDo cenv request = Fail e
                 | inl (TokenError e) =>
                     sent = None /\ fst (getCopilotToken (broker cenv) now1 now2 w) = Fail e
                 | inl (MarshalError e) => sent = None
                 end).
    { clear Hsent. unfold SendRequest in Hsend.
      destruct (getCopilotToken (broker cenv) now1 now2 w) as [[token|e] w1].
      - simpl in Hsend. rewrite Hwire in Hsend. simpl in Hsend.
        destruct (json_Marshal chatReq (map remapMessage original)) as [body|e].
        + destruct (chatDo cenv _) as [upstream|e] eqn:Hdo;
            injection Hsend as <- <- <-; eauto.
        + injection Hsend as <- <- <-. reflexivity.
      - injection Hsend as <- <- <-. auto. }
    destruct r as [[e|e|e] | upstream]; eexists _, _, _, _;
      (split; [reflexivity | split; [exact Hkept | split; [exact Hkeep | split; [exact Hsent|]]]]).
    + exact Hr.
    + exact Hr.
    + exact Hr.
    + destruct Hr as (request & Hreq & Hdo). eauto.
  - exfalso. unfold SendRequest in Hsend.
    destruct (getCopilotToken (broker cenv) now1 now2 w) as [[token|e] w1]; [|discriminate].
    simpl in Hsend. rewrite Hwire in Hsend. simpl in Hsend.
    destruct (json_Marshal chatReq (map remapMessage original)); [|discriminate].
    destruct (chatDo cenv _); discriminate.
Qed.

(** The sample conversation sent as a streaming request: the call returns a
    stream, and the caller's messages are where they were. *)
Lemma ChatCompletion_spec_witness :
  exists r h' w' sent,
    @ChatCompletion sampleJSON sampleSSE sampleWire
      (sampleChatEnv (Ok (mkCreds "gho_1")) 200 "{}") (1000 * Second) (1001 * Second)
      sampleHeap (mkChatRequest "gpt-4o" (mkSlice 7%nat 2%nat) true "")
      (mkWorld (mkClient None) 0)
    = Some (r, h', w', sent)
    /\ contents h' (mkSlice 7%nat 2%nat)
       = Some [mkMessage "system" [mkPart "text" "be brief"] "";
               mkMessage "user" [mkPart "text" "what is this"; mkPart "image_url" "u"] ""].
Proof.
  destruct (@ChatCompletion_spec sampleJSON sampleSSE sampleWire
              (sampleChatEnv (Ok (mkCreds "gho_1")) 200 "{}") (1000 * Second) (1001 * Second)
              sampleHeap (mkChatRequest "gpt-4o" (mkSlice 7%nat 2%nat) true "")
              (mkWorld (mkClient None) 0)
              [mkMessage "system" [mkPart "text" "be brief"] "";
               mkMessage "user" [mkPart "text" "what is this"; mkPart "image_url" "u"] ""]
              eq_refl)
    as (r & h' & w' & sent & Hcall & Hkept & _).
  exists r, h', w', sent. split; [exact Hcall | exact Hkept].
Defined.

(** X20. [ChatCompletion] does not look at the status of the answer: when
    the HTTP client answers, with whatever status, the caller gets a stream
    and no error. A status other than 200 shows at the first call of [Next],
    as the UpstreamError of that status with the normalized message of the
    body, and the stream is exhausted after it. *)
Theorem ChatCompletion_then_Next `{JSON} `{Unicode} `{SSE} `{Wire} (cenv : ChatEnv) (now1 now2 : Time)
    (h h' : gmap loc (list Message)) (req : ChatCompletionRequest) (w w' : World)
    (sent : option Request) (stream : Stream) (now : Time) (clock : list Time) :
  ChatCompletion cenv now1 now2 h req w = Some (inr stream, h', w', sent) ->
  exists request upstream,
    sent = Some request
    /\ chatDo cenv request = Ok upstream
    /\ stream = NewStream upstream (req_Stream req)
    /\ (StatusCode upstream <> StatusOK ->
        exists s',
          drain (now :: clock) stream
          = Some ((None, Some (UpstreamError (StatusCode upstream)
                                 (parseUpstreamError (body_data (resp_Body upstream)))))
                  :: replicate (length clock) (None, Some io_EOF), s')
          /\ Err s' = Some (UpstreamError (StatusCode upstream)
                              (parseUpstreamError (body_data (resp_Body upstream)))))
    /\ (StatusCode upstream = StatusOK -> req_Stream req = true ->
        reading stream /\ Err stream = None).
Proof.
  unfold ChatCompletion.
  destruct (transformMessages h (req_Messages req)) as [[h1 messages]|]; [|discriminate].
  simpl.
  set (chatReq := mkChatRequest (req_Model req) messages (req_Stream req) (req_params req)).
  destruct (SendRequest cenv now1 now2 h1 chatReq w) as [[[r w1] sent1]|] eqn:Hsend;
    [|discriminate].
  simpl. destruct r as [e|upstream]; [discriminate|].
  intros [= <- <- <- <-].
  assert (Hsent : exists request, sent1 = Some request /\ chatDo cenv request = Ok upstream).
  { unfold SendRequest in Hsend.
    destruct (getCopilotToken (broker cenv) now1 now2 w) as [[token|e] w2]; [|discriminate].
    destruct (contents h1 (req_Messages chatReq)) as [ms|]; [|discriminate]. simpl in Hsend.
    destruct (json_Marshal chatReq ms) as [body|e]; [|discriminate].
    destruct (chatDo cenv _) as [answer|e] eqn:Hdo; [|discriminate].
    injection Hsend as <- <- <-. eauto. }
  destruct Hsent as (request & -> & Hdo).
  exists request, upstream. split; [reflexivity | split; [exact Hdo | split; [reflexivity|]]].
  split.
  - intros Hstatus. apply Z.eqb_neq in Hstatus.
    eexists. cbn [drain].
    assert (Hnext : Next now (NewStream upstream (req_Stream req))
              = Some ((None, Some (UpstreamError (StatusCode upstream)
                                     (parseUpstreamError (body_data (resp_Body upstream))))),
                      set_err (Some (UpstreamError (StatusCode upstream)
                                       (parseUpstreamError (body_data (resp_Body upstream)))))
                        (set_done true (set_statusChecked true
                           (NewStream upstream (req_Stream req)))))).
    { unfold Next, NewStream. destruct (req_Stream req); simpl; rewrite Hstatus; reflexivity. }
    rewrite Hnext. rewrite drain_done by (destruct (req_Stream req); reflexivity).
    split; [reflexivity|]. destruct (req_Stream req); reflexivity.
  - intros Hstatus ->. repeat split. right. split; [exact Hstatus | reflexivity].
Qed.

(** The request [ChatCompletion] sends for the sample conversation: the
    system message has become an assistant message. *)
Definition sampleWireRequest : Request :=
  mkRequest "POST" "https://copilot.test/chat/completions"
    (@chatHeaders sampleWire (sampleChatEnv (Ok (mkCreds "gho_1")) 403 "forbidden") "tid=1"
       (mkChatRequest "gpt-4o" (mkSlice 7%nat 2%nat) true "")
       [mkMessage "assistant" [mkPart "text" "be brief"] "";
        mkMessage "user" [mkPart "text" "what is this"; mkPart "image_url" "u"] ""])
    "{}".

(** The sample conversation, answered with a 403 and a plain-text body. *)
Lemma ChatCompletion_then_Next_witness :
  exists request upstream,
    Some sampleWireRequest = Some request
    /\ chatDo (sampleChatEnv (Ok (mkCreds "gho_1")) 403 "forbidden") request = Ok upstream
    /\ @NewStream sampleSSE (mkHTTPResponse 403 (mkBody "forbidden" None)) true
       = @NewStream sampleSSE upstream true.
Proof.
  assert (Hcall :
    @ChatCompletion sampleJSON sampleSSE sampleWire
      (sampleChatEnv (Ok (mkCreds "gho_1")) 403 "forbidden")
      (1000 * Second) (1001 * Second) sampleHeap
      (mkChatRequest "gpt-4o" (mkSlice 7%nat 2%nat) true "")
      (mkWorld (mkClient None) 0)
    = Some (inr (@NewStream sampleSSE (mkHTTPResponse 403 (mkBody "forbidden" None)) true),
            <[fresh (dom sampleHeap)
              := [mkMessage "assistant" [mkPart "text" "be brief"] "";
                  mkMessage "user" [mkPart "text" "what is this"; mkPart "image_url" "u"] ""]]>
              sampleHeap,
            mkWorld (mkClient (Some (mkCopilotToken "tid=1" (time_Unix 5000)))) 1,
            Some sampleWireRequest)) by (vm_compute; reflexivity).
  destruct (@ChatCompletion_then_Next sampleJSON sampleUnicode sampleSSE sampleWire _ _ _ _ _ _ _ _ _ _
              (2000 * Second) [] Hcall)
    as (request & upstream & Hsent & Hdo & Hstream & _).
  exists request, upstream. auto.
Defined.
